(** * dlisio: the frame-data decoder of the Python extension

    A shallow embedding of [read_fdata], [fingerprint], [storage_label] and
    the [dl::dtime] caster of the extension module, with the theorems that
    settle the claims of the specification about them.

    Conventions.  A character pointer into a record is an offset ([nat])
    into the record's buffer; the destination buffer is a list of bytes and
    [dst] an offset into it; C integers are [Z]; an object pointer is the
    index of an object in the Python heap.  The platform is the one the
    source names (amd64 Linux): little-endian words, 8-byte pointers,
    signed [char]. *)

From Stdlib Require Import Ascii String.
From stdpp Require Import base numbers list strings pretty.

(** ** Bytes and machine words *)

Abbreviation byte := Z (only parsing).

(** The [n] low bytes of [v], least significant first: what [memcpy] from a
    little-endian object of [n] bytes stores. *)
Fixpoint le_bytes (n : nat) (v : Z) : list byte :=
  match n with
  | O => []
  | S n' => (v `mod` 256)%Z :: le_bytes n' (v `div` 256)%Z
  end.

(** The word a little-endian byte sequence denotes. *)
Fixpoint le_value (bs : list byte) : Z :=
  match bs with
  | [] => 0%Z
  | b :: bs' => (b + 256 * le_value bs')%Z
  end.

(** The size of an object pointer and of a [std::uint32_t]. *)
Definition sizeof_ptr : nat := 8.
Definition sizeof_uint32 : nat := 4.

(** [std::uint32_t(c)] for a [char c] held as its byte value: [char] is
    signed, so bytes from 128 up are negative and wrap modulo 2^32. *)
Definition uint32_of_char (c : byte) : Z :=
  ((if (c <? 128)%Z then c else c - 256) `mod` 2 ^ 32)%Z.

(** [std::uint8_t(copy)] *)
Definition uint8_of_int (v : Z) : Z := (v `mod` 256)%Z.

(** [memcpy(dst, src, length src)] into a buffer; the part that falls
    outside the buffer is not stored. *)
Definition memcpy (dst : nat) (src : list byte) (buf : list byte)
  : list byte :=
  list_inserts dst src buf.

(** [memset(dst, c, n)] *)
Definition memset (dst : nat) (c : byte) (n : nat) (buf : list byte)
  : list byte :=
  list_inserts dst (replicate n c) buf.

(** The [n] bytes found at [off]; a byte outside the buffer reads as 0. *)
Definition peek (off n : nat) (buf : list byte) : list byte :=
  (fun i => default 0%Z (buf !! i)) <$> seq off n.

(** ** C++ exceptions *)

Inductive exn :=
| runtime_error (what : string)      (* std::runtime_error *)
| invalid_argument (what : string)   (* std::invalid_argument *)
| not_implemented (what : string)    (* dl::not_implemented *)
| value_error (what : string)        (* py::value_error *)
| error_already_set                  (* py::error_already_set *)
| out_of_range (what : string).      (* std::out_of_range *)

(** The Python exception a caller of the module sees: the translator that
    [PYBIND11_MODULE] registers for [dl::not_implemented], and pybind11's
    standard translation for the others. *)
Inductive pyexc :=
| PyExc_RuntimeError
| PyExc_ValueError
| PyExc_NotImplementedError
| PyExc_IndexError
| PyExc_Pending.

Definition translate (e : exn) : pyexc :=
  match e with
  | runtime_error _ => PyExc_RuntimeError
  | invalid_argument _ => PyExc_ValueError
  | not_implemented _ => PyExc_NotImplementedError
  | value_error _ => PyExc_ValueError
  | error_already_set => PyExc_Pending
  | out_of_range _ => PyExc_IndexError
  end.

(** ** Python objects *)

(** A C [float] or [double] by its bit pattern. *)
Inductive pyfloat :=
| of_float (bits : Z)
| of_double (bits : Z).

(** [dl::obname], [dl::objref], [dl::attref] *)
Record obname := { origin : Z; copy : Z; id : list byte }.
Record objref := { type : list byte; name : obname }.
Record attref := { atype : list byte; aname : obname; label : list byte }.

Inductive pyval :=
| PyNone
| PyTuple (xs : list pyfloat)
| PyStr (text : list byte)
| PyObname (o : obname)
| PyObjref (o : objref)
| PyAttref (o : attref)
| PyDateTime (Y M D H MN S US : Z).

Record pyobject := { ob_refcnt : Z; ob_val : pyval }.

(** ** The state the decoder works on

    [dst] and [expected_frameno] are the locals of [read_fdata] that outlive
    one field; [buf] is the memory of the destination buffer, [heap] the
    Python heap, [warnings] what [runtime_warning] has issued. *)
Record state := {
  dst : nat;
  expected_frameno : Z;
  buf : list byte;
  heap : list pyobject;
  warnings : list string
}.

Definition set_dst (d : nat) (s : state) : state :=
  {| dst := d; expected_frameno := expected_frameno s; buf := buf s;
     heap := heap s; warnings := warnings s |}.
Definition set_expected_frameno (n : Z) (s : state) : state :=
  {| dst := dst s; expected_frameno := n; buf := buf s;
     heap := heap s; warnings := warnings s |}.
Definition set_buf (b : list byte) (s : state) : state :=
  {| dst := dst s; expected_frameno := expected_frameno s; buf := b;
     heap := heap s; warnings := warnings s |}.
Definition set_heap (h : list pyobject) (s : state) : state :=
  {| dst := dst s; expected_frameno := expected_frameno s; buf := buf s;
     heap := h; warnings := warnings s |}.
Definition set_warnings (w : list string) (s : state) : state :=
  {| dst := dst s; expected_frameno := expected_frameno s; buf := buf s;
     heap := heap s; warnings := w |}.

(** ** A state monad with exceptions

    An exception leaves the state as it was when it was thrown: what has
    been stored stays stored. *)
Inductive outcome (A : Type) :=
| Return (a : A)
| Throw (e : exn)
| OutOfFuel.      (* a loop of the model ran out of its bound *)
Arguments Return {A} a.
Arguments Throw {A} e.
Arguments OutOfFuel {A}.

Definition cmd (A : Type) : Type := state -> outcome A * state.

Definition ret {A} (a : A) : cmd A := fun s => (Return a, s).
Definition throw {A} (e : exn) : cmd A := fun s => (Throw e, s).
Definition bind {A B} (m : cmd A) (k : A -> cmd B) : cmd B :=
  fun s => match m s with
           | (Return a, s') => k a s'
           | (Throw e, s') => (Throw e, s')
           | (OutOfFuel, s') => (OutOfFuel, s')
           end.
Definition gets {A} (f : state -> A) : cmd A := fun s => (Return (f s), s).
Definition modify (f : state -> state) : cmd unit := fun s => (Return tt, f s).

Notation "'let*' x := m 'in' k" := (bind m (fun x => k))
  (at level 10, x name, m at level 100, k at level 200).
Notation "m ;; k" := (bind m (fun _ => k))
  (at level 100, k at level 200, right associativity).

(** ** Reference counting and object slots *)

Definition add_ref (d : Z) (o : pyobject) : pyobject :=
  {| ob_refcnt := (ob_refcnt o + d)%Z; ob_val := ob_val o |}.

(** [Py_DECREF(p)]: one reference less; an object whose count reaches 0 is
    dead.  An address that is no object of the heap is outside the contract
    of the buffer (numpy initialises object slots to [None]): the heap is
    left as it is. *)
Definition Py_DECREF (p : nat) : cmd unit :=
  modify (fun s => set_heap (alter (add_ref (-1)) p (heap s)) s).

(** [obj.inc_ref()], also the copy constructor of [py::object]. *)
Definition inc_ref (p : nat) : cmd unit :=
  modify (fun s => set_heap (alter (add_ref 1) p (heap s)) s).

(** [obj.dec_ref()], also the destructor of [py::object]. *)
Definition dec_ref (p : nat) : cmd unit := Py_DECREF p.

(** A new Python object, owned by the one reference that is returned. *)
Definition py_new (v : pyval) : cmd nat :=
  fun s => (Return (length (heap s)),
            set_heap (heap s ++ [{| ob_refcnt := 1; ob_val := v |}]) s).

(** [memcpy(&p, dst, sizeof(p))] *)
Definition load_pointer : cmd nat :=
  gets (fun s => Z.to_nat (le_value (peek (dst s) sizeof_ptr (buf s)))).

(** [memcpy(dst, &p, sizeof(p))] *)
Definition store_pointer (p : nat) : cmd unit :=
  modify (fun s => set_buf (memcpy (dst s) (le_bytes sizeof_ptr (Z.of_nat p))
                                   (buf s)) s).

(** [dst += n] *)
Definition advance (n : nat) : cmd unit :=
  modify (fun s => set_dst (dst s + n) s).

(** The lambda [swap_pointer] of [read_fdata].  Its parameter [obj] is a
    [py::object] taken by value: the caller has made it (a copy or a moved
    temporary), and it is destroyed when the lambda returns. *)
Definition swap_pointer (obj : nat) : cmd unit :=
  let* p := load_pointer in
  Py_DECREF p;;
  inc_ref obj;;
  store_pointer obj;;
  advance sizeof_ptr;;
  dec_ref obj.

(** [swap_pointer(t)] for a local [t] that dies at the [continue]. *)
Definition swap_pointer_local (t : nat) : cmd unit :=
  inc_ref t;;
  swap_pointer t;;
  dec_ref t.

(** ** Constructors of the Python C API and of pybind11 *)

Definition is_leap (y : Z) : bool :=
  ((y `mod` 4 =? 0) && (negb (y `mod` 100 =? 0) || (y `mod` 400 =? 0)))%Z.

Definition days_in_month (y m : Z) : Z :=
  (if m =? 2 then (if is_leap y then 29 else 28)
   else if (m =? 4) || (m =? 6) || (m =? 9) || (m =? 11) then 30
   else 31)%Z.

(** The argument check of CPython's [datetime] constructor. *)
Definition valid_datetime (Y M D H MN S US : Z) : bool :=
  ((1 <=? Y) && (Y <=? 9999) && (1 <=? M) && (M <=? 12) &&
   (1 <=? D) && (D <=? days_in_month Y M) &&
   (0 <=? H) && (H <=? 23) && (0 <=? MN) && (MN <=? 59) &&
   (0 <=? S) && (S <=? 59) && (0 <=? US) && (US <=? 999999))%Z.

(** [PyDateTime_FromDateAndTime]: the value of the new object, or [None]
    for the null pointer it returns (with a [ValueError] pending) when the
    arguments are no date and time. *)
Definition PyDateTime_FromDateAndTime (Y M D H MN S US : Z) : option pyval :=
  if valid_datetime Y M D H MN S US then Some (PyDateTime Y M D H MN S US)
  else None.

Definition continuation (b : byte) : bool := ((128 <=? b) && (b <=? 191))%Z.

Definition second_of_three (b0 b1 : byte) : bool :=
  (if b0 =? 224 then (160 <=? b1) && (b1 <=? 191)
   else if b0 =? 237 then (128 <=? b1) && (b1 <=? 159)
   else continuation b1)%Z.

Definition second_of_four (b0 b1 : byte) : bool :=
  (if b0 =? 240 then (144 <=? b1) && (b1 <=? 191)
   else if b0 =? 244 then (128 <=? b1) && (b1 <=? 143)
   else continuation b1)%Z.

(** Well-formed UTF-8, as CPython's strict decoder accepts it. *)
Fixpoint utf8_valid (bs : list byte) : bool :=
  match bs with
  | [] => true
  | b0 :: r0 =>
    if ((0 <=? b0) && (b0 <? 128))%Z then utf8_valid r0
    else match r0 with
    | [] => false
    | b1 :: r1 =>
      if ((194 <=? b0) && (b0 <=? 223))%Z then continuation b1 && utf8_valid r1
      else match r1 with
      | [] => false
      | b2 :: r2 =>
        if ((224 <=? b0) && (b0 <=? 239))%Z
        then second_of_three b0 b1 && continuation b2 && utf8_valid r2
        else match r2 with
        | [] => false
        | b3 :: r3 =>
          ((240 <=? b0) && (b0 <=? 244))%Z && second_of_four b0 b1 &&
          continuation b2 && continuation b3 && utf8_valid r3
        end
      end
    end
  end.

(** The texts of which the interpreter keeps one shared object: the empty
    string and the strings of one character of Latin-1, which is one byte
    of ASCII or the two bytes of a character from U+0080 to U+00FF. *)
Definition shared_text (text : list byte) : bool :=
  match text with
  | [] => true
  | [b] => ((0 <=? b) && (b <? 128))%Z
  | [b0; _] => ((b0 =? 194) || (b0 =? 195))%Z
  | _ => false
  end.

(** The first [str] of a text in the heap. *)
Fixpoint find_str (text : list byte) (h : list pyobject) : option nat :=
  match h with
  | [] => None
  | o :: h' =>
    match ob_val o with
    | PyStr t => if bool_decide (t = text) then Some 0
                 else S <$> find_str text h'
    | _ => S <$> find_str text h'
    end
  end.

(** A new reference to the shared object of a text.  The shared object is
    the first [str] of the text in the heap (such a text is never built a
    second time); when the heap has none yet, the interpreter builds it
    and keeps a reference of its own besides the one it returns. *)
Definition py_shared (text : list byte) : cmd nat :=
  fun s =>
    match find_str text (heap s) with
    | Some a => (Return a, set_heap (alter (add_ref 1) a (heap s)) s)
    | None =>
      (Return (length (heap s)),
       set_heap (heap s ++ [{| ob_refcnt := 2; ob_val := PyStr text |}]) s)
    end.

(** [py::str(ptr, len)]: [PyUnicode_FromStringAndSize] decodes UTF-8, and
    pybind11 fails with a [std::runtime_error] when it returns null (the
    error [maybe_decode] of the same file catches).  For the empty string
    and a string of one character of Latin-1 it returns the shared object
    of the interpreter, for any other text a new object. *)
Definition py_str (text : list byte) : cmd nat :=
  if utf8_valid text then
    if shared_text text then py_shared text else py_new (PyStr text)
  else throw (runtime_error "Could not allocate string object!").

(** [runtime_warning(msg)] *)
Definition runtime_warning (msg : string) : cmd unit :=
  modify (fun s => set_warnings (warnings s ++ [msg]) s).

(** ** Records and the primitive catalog of the C core *)

(** [dl::record] *)
Record record := {
  rtype : Z;
  isexplicit : bool;
  isencrypted : bool;
  consistent : bool;
  data : list byte
}.

(** [dl::datetime] (typeconv.hpp) *)
Record datetime := {
  dtY : Z; dtTZ : Z; dtM : Z; dtD : Z; dtH : Z; dtMN : Z; dtS : Z; dtMS : Z
}.

(** What a character pointer sees: a byte for every offset. *)
Abbreviation memory := (nat -> byte) (only parsing).

(** The functions and constants of [dlisio/dlisio.h] that [read_fdata] uses.
    They are not among the sources and are parameters of the development.
    A decoder takes the memory and the cursor, and gives the cursor past
    what it consumed with the values it stores through its out-pointers. *)
Record catalog := {
  DLIS_FMT_FSING1 : ascii;
  DLIS_FMT_FSING2 : ascii;
  DLIS_FMT_FDOUB1 : ascii;
  DLIS_FMT_FDOUB2 : ascii;
  DLIS_FMT_IDENT : ascii;
  DLIS_FMT_UNITS : ascii;
  DLIS_FMT_ASCII : ascii;
  DLIS_FMT_OBNAME : ascii;
  DLIS_FMT_OBJREF : ascii;
  DLIS_FMT_ATTREF : ascii;
  DLIS_FMT_DTIME : ascii;
  DLIS_YEAR_ZERO : Z;
  dlis_uvari : memory -> nat -> nat * Z;
  dlis_ident : memory -> nat -> nat * Z * list byte;
  dlis_obname : memory -> nat -> nat * Z * Z * Z * list byte;
  dlis_objref : memory -> nat ->
                nat * Z * list byte * Z * Z * Z * list byte;
  dlis_attref : memory -> nat ->
                nat * Z * list byte * Z * Z * Z * list byte * Z * list byte;
  dlis_fsing1 : memory -> nat -> nat * Z * Z;
  dlis_fsing2 : memory -> nat -> nat * Z * Z * Z;
  dlis_fdoub1 : memory -> nat -> nat * Z * Z;
  dlis_fdoub2 : memory -> nat -> nat * Z * Z * Z;
  dlis_dtime : memory -> nat -> nat * datetime;
  dlis_packflen : string -> memory -> nat -> nat * nat;
  dlis_packf : string -> memory -> nat -> list byte
}.

(** [std::string(id, idlen)] *)
Definition std_string (buffer : list byte) (len : Z) : list byte :=
  take (Z.to_nat len) buffer.

(** ** [read_fdata] *)

Section Decoder.

Context (cat : catalog).

(** The bytes that lie after a record's buffer.  C++ leaves a read past the
    end undefined; here it sees [stray], and every statement below holds
    whatever [stray] is. *)
Context (stray : nat -> byte).

(** [record.data.data()] *)
Definition bytes_of (r : record) : memory :=
  fun i => default (stray i) (data r !! i).

(** Modelled from the spec: [dlis_year] of the C core is not among the
    sources; the spec has it normalize the year with the format's
    year-origin bias, here the catalog's constant [DLIS_YEAR_ZERO]. *)
Definition dlis_year (Y : Z) : Z := (Y + DLIS_YEAR_ZERO cat)%Z.

(** The lambda [assert_overflow], with the [end] it captures. *)
Definition assert_overflow (end_ ptr skip : nat) : cmd unit :=
  if end_ <? ptr + skip
  then throw (runtime_error "corrupted record: fmtstr would read past end")
  else ret tt.

(** [constexpr auto chars = 255] and [ident_size] *)
Definition chars : nat := 255.
Definition ident_size : nat := chars * sizeof_uint32.

(** One turn of the loop that widens the characters of an identifier. *)
Definition put_char (tmp : list byte) (d : nat) (b : list byte) (i : nat)
  : list byte :=
  memcpy (d + i * sizeof_uint32)
         (le_bytes sizeof_uint32 (uint32_of_char (default 0%Z (tmp !! i)))) b.

(** [for (auto i = 0; i < len; ++i)] over the slot at [d] *)
Definition widen (len : Z) (tmp : list byte) (d : nat) (b : list byte)
  : list byte :=
  fold_left (put_char tmp d) (seq 0 (Z.to_nat len)) b.

(** The branch for [DLIS_FMT_DTIME], after [dlis_dtime] has run. *)
Definition store_dtime (dt : datetime) : cmd unit :=
  let Y := dlis_year (dtY dt) in
  let US := (dtMS dt * 1000)%Z in
  let* p := load_pointer in
  Py_DECREF p;;
  match PyDateTime_FromDateAndTime Y (dtM dt) (dtD dt) (dtH dt) (dtMN dt)
                                   (dtS dt) US with
  | None => throw error_already_set
  | Some v =>
    let* p := py_new v in
    store_pointer p;;
    advance sizeof_ptr
  end.

(** The generic path at the end of the loop body: [dlis_packflen],
    [assert_overflow], [dlis_packf]. *)
Definition packf_field (mem : memory) (end_ : nat) (f : ascii) (ptr : nat)
  : cmd nat :=
  let localfmt := String f EmptyString in
  let '(src_skip, dst_skip) := dlis_packflen cat localfmt mem ptr in
  assert_overflow end_ ptr src_skip;;
  modify (fun s => set_buf (memcpy (dst s) (dlis_packf cat localfmt mem ptr)
                                   (buf s)) s);;
  advance dst_skip;;
  ret (ptr + src_skip).

(** The body of [for (auto* f = fmt; *f; ++f)]: decode the field of code
    [f] at [ptr], store it at [dst], and give the cursor after it. *)
Definition field (mem : memory) (end_ : nat) (f : ascii) (ptr : nat)
  : cmd nat :=
  if Ascii.eqb f (DLIS_FMT_FSING1 cat) then
    let '(ptr, v, a) := dlis_fsing1 cat mem ptr in
    let* t := py_new (PyTuple [of_float v; of_float a]) in
    swap_pointer_local t;;
    ret ptr
  else if Ascii.eqb f (DLIS_FMT_FSING2 cat) then
    let '(ptr, v, a, b) := dlis_fsing2 cat mem ptr in
    let* t := py_new (PyTuple [of_float v; of_float a; of_float b]) in
    swap_pointer_local t;;
    ret ptr
  else if Ascii.eqb f (DLIS_FMT_FDOUB1 cat) then
    let '(ptr, v, a) := dlis_fdoub1 cat mem ptr in
    let* t := py_new (PyTuple [of_double v; of_double a]) in
    swap_pointer_local t;;
    ret ptr
  else if Ascii.eqb f (DLIS_FMT_FDOUB2 cat) then
    let '(ptr, v, a, b) := dlis_fdoub2 cat mem ptr in
    let* t := py_new (PyTuple [of_double v; of_double a; of_double b]) in
    swap_pointer_local t;;
    ret ptr
  else if Ascii.eqb f (DLIS_FMT_IDENT cat)
          || Ascii.eqb f (DLIS_FMT_UNITS cat) then
    let '(ptr, len, tmp) := dlis_ident cat mem ptr in
    modify (fun s => set_buf (memset (dst s) 0%Z ident_size (buf s)) s);;
    modify (fun s => set_buf (widen len tmp (dst s) (buf s)) s);;
    advance ident_size;;
    ret ptr
  else if Ascii.eqb f (DLIS_FMT_ASCII cat) then
    let '(ptr, len) := dlis_uvari cat mem ptr in
    let* ascii := py_str (map mem (seq ptr (Z.to_nat len))) in
    let ptr := ptr + Z.to_nat len in
    swap_pointer_local ascii;;
    ret ptr
  else if Ascii.eqb f (DLIS_FMT_OBNAME cat) then
    let '(ptr, origin, copy, idlen, id) := dlis_obname cat mem ptr in
    let name := {| origin := origin; copy := copy;
                   id := std_string id idlen |} in
    let* o := py_new (PyObname name) in
    swap_pointer o;;
    ret ptr
  else if Ascii.eqb f (DLIS_FMT_OBJREF cat) then
    let '(ptr, idlen, id, origin, copy, objnamelen, objname) :=
      dlis_objref cat mem ptr in
    let name := {| type := std_string id idlen;
                   name := {| origin := origin; copy := copy;
                              id := std_string objname objnamelen |} |} in
    let* o := py_new (PyObjref name) in
    swap_pointer o;;
    ret ptr
  else if Ascii.eqb f (DLIS_FMT_ATTREF cat) then
    let '(ptr, id1len, id1, origin, copy, objnamelen, objname, id2len, id2) :=
      dlis_attref cat mem ptr in
    let ref := {| atype := std_string id1 id1len;
                  aname := {| origin := origin; copy := copy;
                              id := std_string objname objnamelen |};
                  label := std_string id2 id2len |} in
    let* o := py_new (PyAttref ref) in
    swap_pointer o;;
    ret ptr
  else if Ascii.eqb f (DLIS_FMT_DTIME cat) then
    let '(ptr, dt) := dlis_dtime cat mem ptr in
    store_dtime dt;;
    ret ptr
  else packf_field mem end_ f ptr.

(** [for (auto* f = fmt; *f; ++f)] *)
Fixpoint fields (mem : memory) (end_ : nat) (fmt : string) (ptr : nat)
  : cmd nat :=
  match fmt with
  | EmptyString => ret ptr
  | String f rest =>
    let* ptr := field mem end_ f ptr in
    fields mem end_ rest ptr
  end.

(** The body of [if (frameno != expected_frameno)]: two comments, the
    first of them "TODO: warning". *)
Definition non_sequential (expected frameno : Z) : cmd unit := ret tt.

(** The body of [while (ptr < end)] up to the test for a second frame:
    the frame number, the span of [pre_fmt], the fields, the span of
    [post_fmt].  (A frame number of the encoding is below 2^30, so that
    [frameno + 1] is the sum in [int] as well.) *)
Definition frame_row (pre_fmt fmt post_fmt : string) (mem : memory)
  (end_ ptr : nat) : cmd nat :=
  let '(ptr, frameno) := dlis_uvari cat mem ptr in
  let* expected := gets expected_frameno in
  (if (frameno =? expected)%Z then ret tt
   else non_sequential expected frameno);;
  let '(src_skip, _) := dlis_packflen cat pre_fmt mem ptr in
  assert_overflow end_ ptr src_skip;;
  let ptr := ptr + src_skip in
  let* ptr := fields mem end_ fmt ptr in
  modify (set_expected_frameno (frameno + 1)%Z);;
  let '(src_skip, _) := dlis_packflen cat post_fmt mem ptr in
  assert_overflow end_ ptr src_skip;;
  ret (ptr + src_skip).

(** The whole body of [while (ptr < end)]. *)
Definition frame (pre_fmt fmt post_fmt : string) (mem : memory)
  (end_ ptr : nat) : cmd nat :=
  let* ptr := frame_row pre_fmt fmt post_fmt mem end_ ptr in
  if ptr =? end_ then ret ptr
  else throw (not_implemented "multiple frames in one FDATA").

(** [while (ptr < end)], bounded by [fuel] turns. *)
Fixpoint frames (fuel : nat) (pre_fmt fmt post_fmt : string) (mem : memory)
  (end_ ptr : nat) : cmd unit :=
  if ptr <? end_ then
    match fuel with
    | O => fun s => (OutOfFuel, s)
    | S fuel' =>
      let* ptr := frame pre_fmt fmt post_fmt mem end_ ptr in
      frames fuel' pre_fmt fmt post_fmt mem end_ ptr
    end
  else ret tt.

(** The body of [for (auto i : indices)] once [file.at] has filled
    [record]. *)
Definition read_record (pre_fmt fmt post_fmt : string) (r : record)
  : cmd unit :=
  if isencrypted r then throw (not_implemented "encrypted FDATA record")
  else
    let mem := bytes_of r in
    let end_ := length (data r) in
    let '(ptr, _, _, _, _) := dlis_obname cat mem 0 in
    frames (S end_) pre_fmt fmt post_fmt mem end_ ptr.

(** Modelled from the spec: [dl::stream::at] is not among the sources; the
    spec has the record source fail for an index that names no record
    (here with the [std::out_of_range] of a vector). *)
Definition stream_at (file : list record) (i : Z) : cmd record :=
  match (if (i <? 0)%Z then None else file !! Z.to_nat i) with
  | Some r => ret r
  | None => throw (out_of_range "record index")
  end.

(** [for (auto i : indices)] *)
Fixpoint read_records (pre_fmt fmt post_fmt : string) (file : list record)
  (indices : list Z) : cmd unit :=
  match indices with
  | [] => ret tt
  | i :: rest =>
    let* r := stream_at file i in
    read_record pre_fmt fmt post_fmt r;;
    read_records pre_fmt fmt post_fmt file rest
  end.

(** [read_fdata]: [dst] starts at the buffer the caller hands in,
    [expected_frameno] at 1. *)
Definition read_fdata (pre_fmt fmt post_fmt : string) (file : list record)
  (indices : list Z) : cmd unit :=
  modify (set_dst 0);;
  modify (set_expected_frameno 1);;
  read_records pre_fmt fmt post_fmt file indices.

End Decoder.

(** ** A catalog to run the decoder on

    Modelled from the spec: the primitive decoders of the C core
    ([dlisio.h]) are not among the sources.  The spec names what they
    decode: a varint, an identifier prefixed by its length of at most 255,
    OBNAME as origin, copy number and identifier, OBJREF as a type and an
    OBNAME, ATTREF as a type, an OBNAME and a label, DTIME as year, time
    zone, month, day, hour, minute, second and millisecond.  The byte
    layouts are those of RP66 V1, for the representation codes that are
    moved byte by byte, under one format character for each code; the
    codes whose conversion is floating-point arithmetic (FSHORT, ISINGL,
    VSINGL) are left out.  The theorems are stated for every catalog; this
    instance serves to run the decoder on the examples below. *)
Module RP66.

(** A big-endian unsigned integer of [n] bytes at [p]. *)
Definition be (mem : memory) (p n : nat) : Z :=
  le_value (rev (map mem (seq p n))).

Definition ushort (mem : memory) (p : nat) : nat * Z := (p + 1, mem p).

Definition uvari (mem : memory) (p : nat) : nat * Z :=
  let high := Z.land (mem p) 192 in
  if (high =? 192)%Z then (p + 4, Z.land (be mem p 4) 1073741823)
  else if (high =? 128)%Z then (p + 2, Z.land (be mem p 2) 16383)
  else (p + 1, mem p).

Definition ident (mem : memory) (p : nat) : nat * Z * list byte :=
  let n := Z.to_nat (mem p) in
  (p + 1 + n, mem p, map mem (seq (p + 1) n)).

Definition obname (mem : memory) (p : nat) : nat * Z * Z * Z * list byte :=
  let '(p, origin) := uvari mem p in
  let '(p, copy) := ushort mem p in
  let '(p, idlen, id) := ident mem p in
  (p, origin, copy, idlen, id).

Definition objref (mem : memory) (p : nat)
  : nat * Z * list byte * Z * Z * Z * list byte :=
  let '(p, idlen, id) := ident mem p in
  let '(p, origin, copy, namelen, name) := obname mem p in
  (p, idlen, id, origin, copy, namelen, name).

Definition attref (mem : memory) (p : nat)
  : nat * Z * list byte * Z * Z * Z * list byte * Z * list byte :=
  let '(p, idlen, id, origin, copy, namelen, name) := objref mem p in
  let '(p, id2len, id2) := ident mem p in
  (p, idlen, id, origin, copy, namelen, name, id2len, id2).

Definition fsing1 (mem : memory) (p : nat) : nat * Z * Z :=
  (p + 8, be mem p 4, be mem (p + 4) 4).
Definition fsing2 (mem : memory) (p : nat) : nat * Z * Z * Z :=
  (p + 12, be mem p 4, be mem (p + 4) 4, be mem (p + 8) 4).
Definition fdoub1 (mem : memory) (p : nat) : nat * Z * Z :=
  (p + 16, be mem p 8, be mem (p + 8) 8).
Definition fdoub2 (mem : memory) (p : nat) : nat * Z * Z * Z :=
  (p + 24, be mem p 8, be mem (p + 8) 8, be mem (p + 16) 8).

Definition dtime (mem : memory) (p : nat) : nat * datetime :=
  (p + 8,
   {| dtY := mem p;
      dtTZ := Z.shiftr (mem (p + 1)) 4;
      dtM := Z.land (mem (p + 1)) 15;
      dtD := mem (p + 2);
      dtH := mem (p + 3);
      dtMN := mem (p + 4);
      dtS := mem (p + 5);
      dtMS := be mem (p + 6) 2 |}).

(** The bytes a code takes from the source at [p] and the bytes it fills
    in the destination, for the codes of the generic path: integers and
    IEEE floats change byte order, UVARI and ORIGIN become an [int32]. *)
Definition pack1 (f : ascii) (mem : memory) (p : nat) : nat * list byte :=
  let swap n := (n, rev (map mem (seq p n))) in
  if (f =? "f")%char || (f =? "l")%char || (f =? "L")%char then swap 4
  else if (f =? "F")%char then swap 8
  else if (f =? "D")%char || (f =? "U")%char then swap 2
  else if (f =? "d")%char || (f =? "u")%char || (f =? "q")%char then swap 1
  else if (f =? "c")%char
       then (8, rev (map mem (seq p 4)) ++ rev (map mem (seq (p + 4) 4)))
  else if (f =? "C")%char
       then (16, rev (map mem (seq p 8)) ++ rev (map mem (seq (p + 8) 8)))
  else if (f =? "i")%char || (f =? "J")%char
       then let '(q, v) := uvari mem p in (q - p, le_bytes 4 v)
  else (0, []).

Fixpoint pack (fmt : string) (mem : memory) (p : nat) : nat * list byte :=
  match fmt with
  | EmptyString => (0, [])
  | String f rest =>
    let '(n, out) := pack1 f mem p in
    let '(n', out') := pack rest mem (p + n) in
    (n + n', out ++ out')
  end.

Definition packflen (fmt : string) (mem : memory) (p : nat) : nat * nat :=
  let '(n, out) := pack fmt mem p in (n, length out).

Definition packf (fmt : string) (mem : memory) (p : nat) : list byte :=
  snd (pack fmt mem p).

End RP66.

Definition rp66 : catalog := {|
  DLIS_FMT_FSING1 := "b";
  DLIS_FMT_FSING2 := "B";
  DLIS_FMT_FDOUB1 := "z";
  DLIS_FMT_FDOUB2 := "Z";
  DLIS_FMT_IDENT := "s";
  DLIS_FMT_UNITS := "e";
  DLIS_FMT_ASCII := "S";
  DLIS_FMT_OBNAME := "o";
  DLIS_FMT_OBJREF := "O";
  DLIS_FMT_ATTREF := "A";
  DLIS_FMT_DTIME := "j";
  DLIS_YEAR_ZERO := 1900;
  dlis_uvari := RP66.uvari;
  dlis_ident := RP66.ident;
  dlis_obname := RP66.obname;
  dlis_objref := RP66.objref;
  dlis_attref := RP66.attref;
  dlis_fsing1 := RP66.fsing1;
  dlis_fsing2 := RP66.fsing2;
  dlis_fdoub1 := RP66.fdoub1;
  dlis_fdoub2 := RP66.fdoub2;
  dlis_dtime := RP66.dtime;
  dlis_packflen := RP66.packflen;
  dlis_packf := RP66.packf
|}.

(** What lies after a record in the examples. *)
Definition zeros : nat -> byte := fun _ => 0%Z.

(** A plaintext frame-data record. *)
Definition fdata (bytes : list byte) : record :=
  {| rtype := 0; isexplicit := false; isencrypted := false;
     consistent := true; data := bytes |}.

(** A buffer of [n] bytes over a heap that holds [None], to which every
    object slot of a fresh buffer refers (address 0 is eight zero bytes). *)
Definition fresh (n : nat) (refs : Z) : state :=
  {| dst := 0; expected_frameno := 1; buf := replicate n 0%Z;
     heap := [{| ob_refcnt := refs; ob_val := PyNone |}]; warnings := [] |}.

(** ** The branch a format character takes *)

Inductive shape :=
| SFsing1 | SFsing2 | SFdoub1 | SFdoub2
| SIdent | SAscii | SObname | SObjref | SAttref | SDtime
| SPacked.

(** A shape that is decoded without a call of [assert_overflow]. *)
Definition unchecked (sh : shape) : bool :=
  match sh with
  | SPacked => false
  | _ => true
  end.

(** The address a slot of the buffer holds, the reference count of an
    object and its value. *)
Definition slot_at (o : nat) (s : state) : nat :=
  Z.to_nat (le_value (peek o sizeof_ptr (buf s))).
Definition refcnt (a : nat) (s : state) : Z :=
  default 0%Z (ob_refcnt <$> heap s !! a).
Definition value_at (a : nat) (s : state) : option pyval :=
  ob_val <$> heap s !! a.

(** The slot at [dst] changes its occupant: the object it referred to
    loses one reference, a new object of value [v] is referred to by the
    slot and by nothing else, and [dst] moves to the next slot. *)
Definition replace_occupant (v : pyval) (s : state) : state :=
  {| dst := dst s + sizeof_ptr;
     expected_frameno := expected_frameno s;
     buf := memcpy (dst s) (le_bytes sizeof_ptr (Z.of_nat (length (heap s))))
                   (buf s);
     heap := alter (add_ref (-1)) (slot_at (dst s) s) (heap s)
             ++ [{| ob_refcnt := 1; ob_val := v |}];
     warnings := warnings s |}.

(** The code unit of index [i] in the identifier slot at offset [o]. *)
Definition code_unit (o i : nat) (s : state) : Z :=
  le_value (peek (o + i * sizeof_uint32) sizeof_uint32 (buf s)).

(** What lies before [dst] stays: [dst] only grows, and the bytes before
    it are not stored to. *)
Definition keeps_rows (s s' : state) : Prop :=
  dst s <= dst s' /\ take (dst s) (buf s') = take (dst s) (buf s).

Section Walk.

Context (cat : catalog).
Context (stray : nat -> byte).

(** The test chain of the loop body, by itself. *)
Definition dispatch (f : ascii) : shape :=
  if Ascii.eqb f (DLIS_FMT_FSING1 cat) then SFsing1
  else if Ascii.eqb f (DLIS_FMT_FSING2 cat) then SFsing2
  else if Ascii.eqb f (DLIS_FMT_FDOUB1 cat) then SFdoub1
  else if Ascii.eqb f (DLIS_FMT_FDOUB2 cat) then SFdoub2
  else if Ascii.eqb f (DLIS_FMT_IDENT cat) || Ascii.eqb f (DLIS_FMT_UNITS cat)
       then SIdent
  else if Ascii.eqb f (DLIS_FMT_ASCII cat) then SAscii
  else if Ascii.eqb f (DLIS_FMT_OBNAME cat) then SObname
  else if Ascii.eqb f (DLIS_FMT_OBJREF cat) then SObjref
  else if Ascii.eqb f (DLIS_FMT_ATTREF cat) then SAttref
  else if Ascii.eqb f (DLIS_FMT_DTIME cat) then SDtime
  else SPacked.

(** The cursor after an object field and the value of the object that is
    built for it; [None] when the field is no object or the object cannot
    be built (text that is no UTF-8, a date the calendar does not have). *)
Definition object_of (mem : memory) (ptr : nat) (sh : shape)
  : option (nat * pyval) :=
  match sh with
  | SFsing1 =>
    let '(p, v, a) := dlis_fsing1 cat mem ptr in
    Some (p, PyTuple [of_float v; of_float a])
  | SFsing2 =>
    let '(p, v, a, b) := dlis_fsing2 cat mem ptr in
    Some (p, PyTuple [of_float v; of_float a; of_float b])
  | SFdoub1 =>
    let '(p, v, a) := dlis_fdoub1 cat mem ptr in
    Some (p, PyTuple [of_double v; of_double a])
  | SFdoub2 =>
    let '(p, v, a, b) := dlis_fdoub2 cat mem ptr in
    Some (p, PyTuple [of_double v; of_double a; of_double b])
  | SAscii =>
    let '(p, len) := dlis_uvari cat mem ptr in
    let text := map mem (seq p (Z.to_nat len)) in
    if utf8_valid text then Some (p + Z.to_nat len, PyStr text) else None
  | SObname =>
    let '(p, origin, copy, idlen, id) := dlis_obname cat mem ptr in
    Some (p, PyObname {| origin := origin; copy := copy;
                         id := std_string id idlen |})
  | SObjref =>
    let '(p, idlen, id, origin, copy, objnamelen, objname) :=
      dlis_objref cat mem ptr in
    Some (p, PyObjref
               {| type := std_string id idlen;
                  name := {| origin := origin; copy := copy;
                             id := std_string objname objnamelen |} |})
  | SAttref =>
    let '(p, id1len, id1, origin, copy, objnamelen, objname, id2len, id2) :=
      dlis_attref cat mem ptr in
    Some (p, PyAttref
               {| atype := std_string id1 id1len;
                  aname := {| origin := origin; copy := copy;
                              id := std_string objname objnamelen |};
                  label := std_string id2 id2len |})
  | SDtime =>
    let '(p, dt) := dlis_dtime cat mem ptr in
    match PyDateTime_FromDateAndTime (dlis_year cat (dtY dt)) (dtM dt)
            (dtD dt) (dtH dt) (dtMN dt) (dtS dt) (dtMS dt * 1000)%Z with
    | Some v => Some (p, v)
    | None => None
    end
  | SIdent | SPacked => None
  end.

(** An object field whose object is a new one: every object but the
    shared texts of the interpreter. *)
Definition builds_new (mem : memory) (ptr : nat) (sh : shape) : bool :=
  match sh with
  | SAscii =>
    let '(p, len) := dlis_uvari cat mem ptr in
    negb (shared_text (map mem (seq p (Z.to_nat len))))
  | _ => true
  end.

(** Where the rows of a record start: after the frame's name. *)
Definition rows_start (r : record) : nat :=
  let '(p, _, _, _, _) := dlis_obname cat (bytes_of stray r) 0 in p.

(** [file.at(i, record)] by itself. *)
Definition record_at (file : list record) (i : Z) : option record :=
  if (i <? 0)%Z then None else file !! Z.to_nat i.

(** One row has been decoded for each record of the list, in its order:
    the loop body has run once on each, from the start of its rows to its
    end. *)
Inductive rows_written (pre_fmt fmt post_fmt : string)
  : list record -> state -> state -> Prop :=
| rows_none s : rows_written pre_fmt fmt post_fmt [] s s
| rows_next r rs s s1 s2 :
    frame cat pre_fmt fmt post_fmt (bytes_of stray r) (length (data r))
          (rows_start r) s = (Return (length (data r)), s1) ->
    rows_written pre_fmt fmt post_fmt rs s1 s2 ->
    rows_written pre_fmt fmt post_fmt (r :: rs) s s2.

(** The records that a list of indices names. *)
Definition records_of (file : list record) (indices : list Z)
  : list record :=
  omap (record_at file) indices.

End Walk.

(** ** What a row holds in the destination buffer

    The fields of a row fill consecutive cells of the buffer: the bytes
    that [dlis_packf] stores for a field of the generic path, the 255 code
    units of an identifier, or the address of an object with the value of
    the field. *)
Inductive cell :=
| CBytes (bs : list byte)
| CUnits (len : Z) (tmp : list byte)
| CObject (v : pyval).

Definition cell_width (c : cell) : nat :=
  match c with
  | CBytes bs => length bs
  | CUnits _ _ => ident_size
  | CObject _ => sizeof_ptr
  end.

Definition cells_width (cs : list cell) : nat := sum_list (cell_width <$> cs).

(** The cell at offset [o] of the buffer holds [c]. *)
Definition holds_cell (o : nat) (c : cell) (s : state) : Prop :=
  match c with
  | CBytes bs => peek o (length bs) (buf s) = bs
  | CUnits len tmp =>
    forall i, i < chars ->
      code_unit o i s
      = if i <? Z.to_nat len then uint32_of_char (default 0%Z (tmp !! i))
        else 0%Z
  | CObject v => value_at (slot_at o s) s = Some v
  end.

(** The cells of a row, one after the other from offset [o]. *)
Fixpoint holds_cells (o : nat) (cs : list cell) (s : state) : Prop :=
  match cs with
  | [] => True
  | c :: cs' => holds_cell o c s /\ holds_cells (o + cell_width c) cs' s
  end.

(** The rows, one after the other from offset [o]. *)
Fixpoint holds_rows (o : nat) (rows : list (list cell)) (s : state) : Prop :=
  match rows with
  | [] => True
  | cs :: rows' => holds_cells o cs s /\ holds_rows (o + cells_width cs) rows' s
  end.

(** The width of the rows. *)
Definition rows_width (rows : list (list cell)) : nat :=
  sum_list (cells_width <$> rows).

(** Every object of the heap [h] is an object of [h'], with its value. *)
Definition heap_keeps (h h' : list pyobject) : Prop :=
  forall a v, ob_val <$> h !! a = Some v -> ob_val <$> h' !! a = Some v.

(** From [s] to [s'] the [w] bytes at [dst] have been written and nothing
    else of the buffer, [dst] is past them, and the heap has kept its
    objects and got [grow] more at most. *)
Definition written (w grow : nat) (s s' : state) : Prop :=
  dst s' = dst s + w /\
  length (buf s') = length (buf s) /\
  (forall j, j < dst s \/ dst s + w <= j -> buf s' !! j = buf s !! j) /\
  heap_keeps (heap s) (heap s') /\
  length (heap s') <= length (heap s) + grow.

(** The slot at [dst] has got the address of an object of value [v]. *)
Definition fills_slot (v : pyval) (s s' : state) : Prop :=
  exists a,
    a <= length (heap s) /\
    dst s' = dst s + sizeof_ptr /\
    buf s' = memcpy (dst s) (le_bytes sizeof_ptr (Z.of_nat a)) (buf s) /\
    heap_keeps (heap s) (heap s') /\
    length (heap s') <= length (heap s) + 1 /\
    value_at a s' = Some v.

Section Cells.

Context (cat : catalog).
Context (stray : nat -> byte).

(** A field that is decoded within the record: the cursor after it and the
    cell it fills.  [None] when the bytes it consumes end after [end_],
    its object cannot be built, its identifier is longer than the slot of
    255 code units, or [dlis_packf] does not store as many bytes as
    [dlis_packflen] announces. *)
Definition field_cell (mem : memory) (end_ : nat) (f : ascii) (ptr : nat)
  : option (nat * cell) :=
  let within (p : nat) (c : cell) :=
    if p <=? end_ then Some (p, c) else None in
  match dispatch cat f with
  | SIdent =>
    let '(p, len, tmp) := dlis_ident cat mem ptr in
    if ((0 <=? len) && (len <=? 255))%Z then within p (CUnits len tmp)
    else None
  | SPacked =>
    let localfmt := String f EmptyString in
    let '(src_skip, dst_skip) := dlis_packflen cat localfmt mem ptr in
    if length (dlis_packf cat localfmt mem ptr) =? dst_skip
    then within (ptr + src_skip) (CBytes (dlis_packf cat localfmt mem ptr))
    else None
  | sh =>
    match object_of cat mem ptr sh with
    | Some (p, v) => within p (CObject v)
    | None => None
    end
  end.

Fixpoint fields_cells (mem : memory) (end_ : nat) (fmt : string) (ptr : nat)
  : option (nat * list cell) :=
  match fmt with
  | EmptyString => Some (ptr, [])
  | String f rest =>
    match field_cell mem end_ f ptr with
    | Some (p, c) =>
      match fields_cells mem end_ rest p with
      | Some (q, cs) => Some (q, c :: cs)
      | None => None
      end
    | None => None
    end
  end.

(** One row decoded within the record from [ptr]: the frame number, the
    span of [pre_fmt], the fields, the span of [post_fmt]. *)
Definition row_cells (pre_fmt fmt post_fmt : string) (mem : memory)
  (end_ ptr : nat) : option (nat * list cell) :=
  let '(p, _) := dlis_uvari cat mem ptr in
  let '(pre, _) := dlis_packflen cat pre_fmt mem p in
  if end_ <? p + pre then None
  else match fields_cells mem end_ fmt (p + pre) with
       | Some (q, cs) =>
         let '(post, _) := dlis_packflen cat post_fmt mem q in
         if end_ <? q + post then None else Some (q + post, cs)
       | None => None
       end.

(** A plaintext record that holds exactly one row, every field of it
    within the record: the cells of the row, or [None]. *)
Definition one_row_cells (pre_fmt fmt post_fmt : string) (r : record)
  : option (list cell) :=
  let end_ := length (data r) in
  if isencrypted r then None
  else if rows_start cat stray r <? end_ then
    match row_cells pre_fmt fmt post_fmt (bytes_of stray r) end_
                    (rows_start cat stray r) with
    | Some (p, cs) => if p =? end_ then Some cs else None
    | None => None
    end
  else None.

(** The records of [indices] all hold one row: the rows, in the order of
    the indices. *)
Fixpoint rows_cells (pre_fmt fmt post_fmt : string) (file : list record)
  (indices : list Z) : option (list (list cell)) :=
  match indices with
  | [] => Some []
  | i :: rest =>
    match record_at file i with
    | Some r =>
      match one_row_cells pre_fmt fmt post_fmt r,
            rows_cells pre_fmt fmt post_fmt file rest with
      | Some cs, Some rows => Some (cs :: rows)
      | _, _ => None
      end
    | None => None
    end
  end.

End Cells.

(** ** [dlis_caster< dl::dtime >::cast] *)

(** The handle the caster returns: the address of the new timestamp, or the
    null handle ([None]) that [PyDateTime_FromDateAndTime] gives, with its
    error pending, for components that are no date and time.  The caster
    throws nothing. *)
Definition dtime_cast (src : datetime) : cmd (option nat) :=
  match PyDateTime_FromDateAndTime (dtY src) (dtM src) (dtD src) (dtH src)
          (dtMN src) (dtS src) (dtMS src * 1000)%Z with
  | Some v => let* p := py_new v in ret (Some p)
  | None => ret None
  end.

(** A [dl::datetime] with another time zone code. *)
Definition with_tz (tz : Z) (dt : datetime) : datetime :=
  {| dtY := dtY dt; dtTZ := tz; dtM := dtM dt; dtD := dtD dt;
     dtH := dtH dt; dtMN := dtMN dt; dtS := dtS dt; dtMS := dtMS dt |}.

(** A [dl::datetime] with another year: the one a [dl::dtime] holds once
    its year is normalized. *)
Definition with_year (Y : Z) (dt : datetime) : datetime :=
  {| dtY := Y; dtTZ := dtTZ dt; dtM := dtM dt; dtD := dtD dt;
     dtH := dtH dt; dtMN := dtMN dt; dtS := dtS dt; dtMS := dtMS dt |}.

(** ** [fingerprint] *)

(** The characters of a string of the model as bytes, and the decimal
    digits of an integer ([std::to_string]). *)
Definition chars_of (text : string) : list byte :=
  (fun c => Z.of_N (N_of_ascii c)) <$> list_ascii_of_string text.
Definition decimal (n : Z) : list byte := chars_of (pretty n).

(** Modelled from the spec: [dl::objref::fingerprint] is not among the
    sources; the spec has it give, for every reference, the canonical
    string of the form type-origin-copy-id, the same for the same
    fields. *)
Definition objref_fingerprint (ref : objref) : outcome (list byte) :=
  Return (type ref ++ chars_of "-" ++ decimal (origin (name ref))
          ++ chars_of "-" ++ decimal (copy (name ref))
          ++ chars_of "-" ++ id (name ref)).

(** [fingerprint]: what [ref.fingerprint()] returns or throws is what the
    entry point returns or throws. *)
Definition fingerprint (type id : list byte) (origin copy : Z)
  : outcome (list byte) :=
  let msg := "Invalid argument, copy out of range" in
  if (copy >? 255)%Z then Throw (invalid_argument msg)
  else if (copy <? 0)%Z then Throw (invalid_argument msg)
  else
    let ucopy := uint8_of_int copy in
    objref_fingerprint
      {| type := type;
         name := {| origin := origin; copy := ucopy; id := id |} |}.

(** ** [storage_label] *)

(** The values [dlis_sul] stores through its out-pointers. *)
Record sul := {
  seqnum : Z; major : Z; minor : Z; layout : Z; maxlen : Z;
  sul_id : list byte
}.

(** The dictionary [storage_label] returns. *)
Record sul_dict := {
  l_sequence : Z; l_version : string; l_layout : string; l_maxlen : Z;
  l_id : list byte
}.

(** The characters of a C string: those before the first null. *)
Fixpoint c_str (chars : list byte) : list byte :=
  match chars with
  | [] => []
  | c :: rest => if (c =? 0)%Z then [] else c :: c_str rest
  end.

Section StorageLabel.

(** Constants and the parser of [dlisio.h], not among the sources. *)
Context (DLIS_SUL_SIZE : nat).
Context (DLIS_OK DLIS_UNEXPECTED_VALUE DLIS_INCONSISTENT : Z).
Context (DLIS_STRUCTURE_RECORD : Z).
Context (dlis_sul : list byte -> Z * sul).

(** [py::dict] is built last: its entry for [id] decodes the characters of
    the array as UTF-8, and pybind11 throws [py::error_already_set] when
    they are none; the numbers, the version and the layout always
    convert. *)
Definition storage_label (b : list byte) : cmd sul_dict :=
  if length b <? DLIS_SUL_SIZE then
    throw (invalid_argument
             ("buffer to small: buffer.size (which is "
              +:+ pretty (length b) +:+ ") < " +:+ "n (which is "
              +:+ pretty DLIS_SUL_SIZE +:+ ")"))
  else
    let '(err, l) := dlis_sul b in
    (if (err =? DLIS_OK)%Z then ret tt
     else if (err =? DLIS_UNEXPECTED_VALUE)%Z
          then throw (value_error "unable to parse storage label")
     else if (err =? DLIS_INCONSISTENT)%Z
          then runtime_warning
                 ("storage unit label inconsistent with "
                  +:+ "specification - falling back to assuming DLIS v1")
     else ret tt);;
    let version := pretty (major l) +:+ "." +:+ pretty (minor l) in
    let laystr := if (layout l =? DLIS_STRUCTURE_RECORD)%Z
                  then "record" else "unknown" in
    if utf8_valid (c_str (sul_id l))
    then ret {| l_sequence := seqnum l; l_version := version;
                l_layout := laystr; l_maxlen := maxlen l;
                l_id := c_str (sul_id l) |}
    else throw error_already_set.

End StorageLabel.

(** ** Records to run the decoder on *)

(** No framing bytes before or after the fields: the empty [pre_fmt] and
    [post_fmt]. *)
Definition no_fmt : string := EmptyString.

(** The name of the frame, which starts every record: origin 1, copy 0,
    the identifier of one character [A]. *)
Definition frame_name : list byte := [1; 0; 1; 65]%Z.

(** Format [fF], a single and a double float.  Frame 1 holds 3.5 and 2.0,
    frame 2 holds 1.0 and 1.0. *)
Definition frame_1 : record :=
  fdata (frame_name ++ [1; 64; 96; 0; 0; 64; 0; 0; 0; 0; 0; 0; 0])%Z.
Definition frame_2 : record :=
  fdata (frame_name ++ [2; 63; 128; 0; 0; 63; 240; 0; 0; 0; 0; 0; 0])%Z.

(** Format [j], a date and time: 19 April 1987, 21:20:15.062, and the same
    with month 0. *)
Definition dated : record :=
  fdata (frame_name ++ [1; 87; 4; 19; 21; 20; 15; 0; 62])%Z.
Definition misdated : record :=
  fdata (frame_name ++ [1; 87; 0; 19; 21; 20; 15; 0; 62])%Z.

(** Format [b], a float with one uncertainty (eight bytes), in a record
    that ends after the first four. *)
Definition truncated : record :=
  fdata (frame_name ++ [1; 64; 96; 0; 0])%Z.

(** Format [f]: two frames in one record. *)
Definition two_frames : record :=
  fdata (frame_name ++ [1; 64; 96; 0; 0; 2; 64; 96; 0; 0])%Z.

(** Format [f]: frame number 5 where 1 is expected. *)
Definition frame_5 : record :=
  fdata (frame_name ++ [5; 64; 96; 0; 0])%Z.

(** An encrypted record. *)
Definition sealed : record :=
  {| rtype := 0; isexplicit := false; isencrypted := true;
     consistent := true; data := [200; 13; 77; 1; 9; 250]%Z |}.

(** Format [S], free text: "ab", then "xyz". *)
Definition text_ab : record := fdata (frame_name ++ [1; 2; 97; 98])%Z.
Definition text_xyz : record := fdata (frame_name ++ [2; 3; 120; 121; 122])%Z.

(** Format [s], an identifier of two characters, [H] and the degree sign
    of Latin-1. *)
Definition named : record := fdata (frame_name ++ [1; 2; 72; 176])%Z.

(** Format [fjS], a single float, a date and time and a text.  Frame 1
    holds 3.5, 19 April 1987, 21:20:15.062 and "ab"; frame 2 holds 1.0,
    the same date and time and "a". *)
Definition mixed_1 : record :=
  fdata (frame_name
         ++ [1; 64; 96; 0; 0; 87; 4; 19; 21; 20; 15; 0; 62; 2; 97; 98])%Z.
Definition mixed_2 : record :=
  fdata (frame_name
         ++ [2; 63; 128; 0; 0; 87; 4; 19; 21; 20; 15; 0; 62; 1; 97])%Z.

(** Format [S]: the text "a" in frame 1 and in frame 2. *)
Definition text_a_1 : record := fdata (frame_name ++ [1; 1; 97])%Z.
Definition text_a_2 : record := fdata (frame_name ++ [2; 1; 97])%Z.

(** * The casters of the text types and the record lambdas of the module *)

(** ** [maybe_decode]

    The casters of [dl::ascii], [dl::ident] and [dl::units] hand the
    decayed [std::string] to [maybe_decode].  The object it returns owns
    the one reference that [inc_ref] adds to a temporary that dies at the
    [return]; the model gives the value of that object. *)

(** What [maybe_decode] hands to Python: a [str], held as the bytes of its
    UTF-8 encoding, or [bytes]. *)
Inductive pytext :=
| Str (utf8 : list byte)
| Bytes (raw : list byte).

(** The two characters the source names: the degree sign of Latin-1 and
    the byte that precedes it in UTF-8. *)
Definition degree : byte := 176%Z.      (* '\xB0' *)
Definition utf8_lead : byte := 194%Z.   (* '\xC2' *)

(** [src.find(c, pos)]: the first index at or after [pos] that holds [c];
    [None] is [std::string::npos]. *)
Fixpoint str_find (c : byte) (src : list byte) (pos : nat) : option nat :=
  match src, pos with
  | [], _ => None
  | b :: rest, O => if (b =? c)%Z then Some 0 else S <$> str_find c rest 0
  | _ :: rest, S pos' => S <$> str_find c rest pos'
  end.

(** [source.insert(pos, 1, c)], for a [pos] that [find] has given. *)
Definition str_insert (pos : nat) (c : byte) (source : list byte)
  : list byte :=
  take pos source ++ c :: drop pos source.

(** [py::str(src)] by its value: pybind11 fails with a
    [std::runtime_error] when the bytes are no UTF-8. *)
Definition str_of_string (src : list byte) : outcome pytext :=
  if utf8_valid src then Return (Str src)
  else Throw (runtime_error "Could not allocate string object!").

(** [py::bytes(src)] *)
Definition bytes_of_string (src : list byte) : outcome pytext :=
  Return (Bytes src).

(** [try { body } catch (std::runtime_error&) { PyErr_Clear(); handler }] *)
Definition catch_runtime_error {A} (body handler : outcome A) : outcome A :=
  match body with
  | Throw (runtime_error _) => handler
  | other => other
  end.

(** [while ((pos = source.find('\xB0', pos + 2)) != npos)
       source.insert(pos, 1, '\xC2');]
    bounded by [fuel] turns. *)
Fixpoint insert_leads (fuel : nat) (source : list byte) (pos : nat)
  : outcome (list byte) :=
  match str_find degree source (pos + 2) with
  | None => Return source
  | Some pos' =>
    match fuel with
    | O => OutOfFuel
    | S fuel' => insert_leads fuel' (str_insert pos' utf8_lead source) pos'
    end
  end.

Definition maybe_decode (src : list byte) : outcome pytext :=
  catch_runtime_error (str_of_string src)
    (match str_find degree src 0 with
     | None => bytes_of_string src
     | Some pos =>
       match insert_leads (length src) (str_insert pos utf8_lead src) pos with
       | Return source =>
         catch_runtime_error (str_of_string source) (bytes_of_string src)
       | Throw e => Throw e
       | OutOfFuel => OutOfFuel
       end
     end).

(** [dlis_caster< dl::ascii >::cast], [dlis_caster< dl::ident >::cast] and
    [dlis_caster< dl::units >::cast], on the decayed string. *)
Definition ascii_cast (src : list byte) : outcome pytext := maybe_decode src.
Definition ident_cast (src : list byte) : outcome pytext := maybe_decode src.
Definition units_cast (src : list byte) : outcome pytext := maybe_decode src.

(** The text in which every degree sign of Latin-1 is the degree sign of
    UTF-8: what the comment of [maybe_decode] says it tries. *)
Fixpoint degree_fix (src : list byte) : list byte :=
  match src with
  | [] => []
  | b :: rest =>
    if (b =? degree)%Z then utf8_lead :: degree :: degree_fix rest
    else b :: degree_fix rest
  end.

(** A byte of ASCII or the degree sign of Latin-1. *)
Definition ascii_or_degree (b : byte) : Prop :=
  (0 <= b < 128)%Z \/ b = degree.

(** ** The exceptions of the decoder *)

(** The exceptions a field can throw: the one of [assert_overflow], the
    one of [py::str] and the one of the branch for DTIME. *)
Definition field_failure (e : exn) : Prop :=
  e = runtime_error "corrupted record: fmtstr would read past end" \/
  e = runtime_error "Could not allocate string object!" \/
  e = error_already_set.

(** The exceptions the body of [for (auto i : indices)] can throw once
    the record is fetched: the two of [dl::not_implemented], and those of
    a field. *)
Definition record_failure (e : exn) : Prop :=
  e = not_implemented "encrypted FDATA record" \/
  e = not_implemented "multiple frames in one FDATA" \/
  field_failure e.

(** Two states in which the locals of [read_fdata] agree, whatever the
    buffer and the heap hold. *)
Definition same_cursor (s t : state) : Prop :=
  dst s = dst t /\ expected_frameno s = expected_frameno t.

Section WithRows.

Context (cat : catalog).
Context (stray : nat -> byte).

(** The records with bytes after the name of their frame: those for which
    [while (ptr < end)] is entered. *)
Definition with_rows (recs : list record) : list record :=
  filter (fun r => rows_start cat stray r < length (data r)) recs.

End WithRows.

(** ** The object slots of a row *)

(** A new object with the one reference of the slot that holds it. *)
Definition owned_once (v : pyval) : pyobject :=
  {| ob_refcnt := 1; ob_val := v |}.

(** The heap after one reference is taken from the object at each address
    of the list. *)
Definition release_all (h : list pyobject) (occupants : list nat)
  : list pyobject :=
  foldl (fun h a => alter (add_ref (-1)) a h) h occupants.

Section Slots.

Context (cat : catalog).

(** The object slots that the fields of a row fill with new objects, in
    their order: for each, the address the slot held when the field
    reached it, and the value of the object built for the field.  [None]
    when a field fails, or a text field takes a shared object of the
    interpreter. *)
Fixpoint object_slots (mem : memory) (end_ : nat) (fmt : string) (ptr : nat)
  (s : state) : option (list (nat * pyval)) :=
  match fmt with
  | EmptyString => Some []
  | String f rest =>
    match field cat mem end_ f ptr s with
    | (Return p, s') =>
      match object_of cat mem ptr (dispatch cat f) with
      | Some (_, v) =>
        if builds_new cat mem ptr (dispatch cat f)
        then cons (slot_at (dst s) s, v) <$> object_slots mem end_ rest p s'
        else None
      | None => object_slots mem end_ rest p s'
      end
    | _ => None
    end
  end.

End Slots.

(** ** The lambda bound as [parse_objects] *)

Section ParseObjects.

Context {object_set : Type}.

(** [dl::parse_objects(begin, end)] is not among the sources: here it is
    any function of the bytes of the record, which gives an object set or
    throws. *)
Context (dl_parse_objects : list byte -> outcome object_set).

(** [for (const auto& rec : recs)], with the vector [objects] built so
    far. *)
Fixpoint parse_objects_loop (objects : list object_set) (recs : list record)
  : outcome (list object_set) :=
  match recs with
  | [] => Return objects
  | rec :: rest =>
    if isencrypted rec then parse_objects_loop objects rest
    else
      match dl_parse_objects (data rec) with
      | Return parsed => parse_objects_loop (objects ++ [parsed]) rest
      | Throw e => Throw e
      | OutOfFuel => OutOfFuel
      end
  end.

Definition parse_objects (recs : list record) : outcome (list object_set) :=
  parse_objects_loop [] recs.

(** The records that are parsed. *)
Definition plaintext (recs : list record) : list record :=
  filter (fun rec => isencrypted rec = false) recs.

End ParseObjects.

(** ** The lambda bound as [stream.extract] *)

Section Extract.

(** [dl::stream::at(i)] is not among the sources: here it is any function
    of the index, which gives a record or throws. *)
Context (stream_at_index : N -> outcome record).

(** [for (auto i : indices)], with the vector [recs] built so far. *)
Fixpoint extract_loop (recs : list record) (indices : list N)
  : outcome (list record) :=
  match indices with
  | [] => Return recs
  | i :: rest =>
    match stream_at_index i with
    | Return rec => extract_loop (recs ++ [rec]) rest
    | Throw e => Throw e
    | OutOfFuel => OutOfFuel
    end
  end.

Definition extract (indices : list N) : outcome (list record) :=
  extract_loop [] indices.

End Extract.

(** ** More records and sources to run the code on *)

(** Format [S]: one byte of text that is no UTF-8. *)
Definition text_raw : record := fdata (frame_name ++ [1; 1; 255])%Z.

(** Format [j]: 19 April 1987, 21:20:15 and 1000 milliseconds. *)
Definition late : record :=
  fdata (frame_name ++ [1; 87; 4; 19; 21; 20; 15; 3; 232])%Z.

(** A record that ends with the name of its frame. *)
Definition name_only : record := fdata frame_name.

(** A parser that takes the bytes of a record as its object set, and
    rejects a record without bytes. *)
Definition parse_bytes (bytes : list byte) : outcome (list byte) :=
  match bytes with
  | [] => Throw (runtime_error "no object set")
  | _ => Return bytes
  end.

(** Format [jS]: 19 April 1987, 21:20:15.062, and the text "ab". *)
Definition dated_text : record :=
  fdata (frame_name ++ [1; 87; 4; 19; 21; 20; 15; 0; 62; 2; 97; 98])%Z.

(** * Facts about the embedding *)

(** ** Words and memory *)

Lemma length_le_bytes n v : length (le_bytes n v) = n.
Proof.
  revert v; induction n as [|n IH]; intros v; simpl; [done|by rewrite IH].
Qed.

Lemma le_value_le_bytes n v :
  (0 <= v < 256 ^ Z.of_nat n)%Z -> le_value (le_bytes n v) = v.
Proof.
  revert v; induction n as [|n IH]; intros v Hv.
  - simpl in *. lia.
  - cbn [le_bytes le_value]. rewrite IH.
    + pose proof (Z_div_mod_eq_full v 256). lia.
    + rewrite Nat2Z.inj_succ, Z.pow_succ_r in Hv by lia.
      split; [apply Z.div_pos; lia|apply Z.div_lt_upper_bound; lia].
Qed.

Lemma length_peek off n b : length (peek off n b) = n.
Proof. unfold peek. by rewrite length_fmap, length_seq. Qed.

Lemma lookup_peek off n b i :
  i < n -> peek off n b !! i = Some (default 0%Z (b !! (off + i))).
Proof.
  intros Hi. unfold peek. by rewrite list_lookup_fmap, lookup_seq_lt.
Qed.

Lemma length_memcpy d src b : length (memcpy d src b) = length b.
Proof. apply length_inserts. Qed.

Lemma lookup_memcpy_lt d src b i : i < d -> memcpy d src b !! i = b !! i.
Proof. apply list_lookup_inserts_lt. Qed.

Lemma lookup_memcpy_ge d src b i :
  d + length src <= i -> memcpy d src b !! i = b !! i.
Proof. apply list_lookup_inserts_ge. Qed.

Lemma lookup_memcpy d src b i :
  d <= i < d + length src -> d + length src <= length b ->
  memcpy d src b !! i = src !! (i - d).
Proof. intros. apply list_lookup_inserts; lia. Qed.

(** What is stored can be read back, when the store lies in the buffer. *)
Lemma peek_memcpy d src b :
  d + length src <= length b -> peek d (length src) (memcpy d src b) = src.
Proof.
  intros Hin. apply list_eq; intros i.
  destruct (decide (i < length src)) as [Hi|Hi].
  - rewrite lookup_peek by done.
    rewrite lookup_memcpy by lia.
    replace (d + i - d) with i by lia.
    destruct (lookup_lt_is_Some_2 src i Hi) as [x Hx]. by rewrite Hx.
  - rewrite !lookup_ge_None_2; [done|lia|rewrite length_peek; lia].
Qed.

(** A store leaves the bytes outside its range as they were. *)
Lemma peek_memcpy_other o n d src b :
  o + n <= d \/ d + length src <= o ->
  peek o n (memcpy d src b) = peek o n b.
Proof.
  intros Hd. apply list_eq; intros i.
  destruct (decide (i < n)) as [Hi|Hi].
  - rewrite !lookup_peek by done. do 2 f_equal.
    destruct Hd; [apply lookup_memcpy_lt|apply lookup_memcpy_ge]; lia.
  - rewrite !lookup_ge_None_2; [done|rewrite length_peek; lia..].
Qed.

Lemma take_memcpy d src b n : n <= d -> take n (memcpy d src b) = take n b.
Proof.
  intros Hn. apply list_eq; intros i.
  destruct (decide (i < n)) as [Hi|Hi].
  - rewrite !lookup_take_lt by done. apply lookup_memcpy_lt. lia.
  - rewrite !lookup_take_ge; [done|lia..].
Qed.

(** ** Object slots *)

Arguments le_bytes : simpl never.
Arguments le_value : simpl never.
Arguments peek : simpl never.
Arguments memcpy : simpl never.
Arguments memset : simpl never.

(** The references of a new object, counted at its address past the
    objects that were there. *)
Lemma alter_new d (h : list pyobject) o :
  alter (add_ref d) (length h) (h ++ [o]) = h ++ [add_ref d o].
Proof.
  replace (length h) with (length h + 0) at 1 by lia.
  by rewrite alter_app_r.
Qed.

(** [auto t = ...; swap_pointer(t); continue;] on a slot that refers to an
    object of the heap. *)
Lemma install_local (v : pyval) (p : nat) (s : state) :
  slot_at (dst s) s < length (heap s) ->
  (let* t := py_new v in swap_pointer_local t;; ret p) s
  = (Return p, replace_occupant v s).
Proof.
  intros Hslot. unfold slot_at in Hslot.
  unfold bind, py_new, swap_pointer_local, swap_pointer, inc_ref, dec_ref,
    Py_DECREF, load_pointer, store_pointer, advance, modify, gets, ret.
  cbn. unfold replace_occupant, slot_at. do 2 f_equal.
  set (q := Z.to_nat _) in *.
  rewrite alter_new.
  rewrite (alter_app_l _ _ _ q) by done.
  rewrite <- (length_alter (add_ref (-1)) (heap s) q).
  rewrite !alter_new. by rewrite length_alter.
Qed.

(** [swap_pointer(py::cast(...))] on such a slot. *)
Lemma install_moved (v : pyval) (p : nat) (s : state) :
  slot_at (dst s) s < length (heap s) ->
  (let* o := py_new v in swap_pointer o;; ret p) s
  = (Return p, replace_occupant v s).
Proof.
  intros Hslot. unfold slot_at in Hslot.
  unfold bind, py_new, swap_pointer, inc_ref, dec_ref,
    Py_DECREF, load_pointer, store_pointer, advance, modify, gets, ret.
  cbn. unfold replace_occupant, slot_at. do 2 f_equal.
  set (q := Z.to_nat _) in *.
  rewrite (alter_app_l _ _ _ q) by done.
  rewrite <- (length_alter (add_ref (-1)) (heap s) q).
  rewrite !alter_new. by rewrite length_alter.
Qed.

(** ** What a field does *)

Ltac unfold_cmd :=
  unfold store_dtime, packf_field, py_str, swap_pointer_local in *;
  unfold py_shared in *;
  unfold swap_pointer, assert_overflow, non_sequential, runtime_warning in *;
  unfold inc_ref, dec_ref in *;
  unfold Py_DECREF, py_new, load_pointer, store_pointer, advance in *;
  unfold bind, ret, throw, gets, modify in *.

(** Splits a goal about [field] and [dispatch] into the eleven branches. *)
Ltac shape_cases f :=
  unfold dispatch, field in *;
  destruct (Ascii.eqb f (DLIS_FMT_FSING1 _)); [|
  destruct (Ascii.eqb f (DLIS_FMT_FSING2 _)); [|
  destruct (Ascii.eqb f (DLIS_FMT_FDOUB1 _)); [|
  destruct (Ascii.eqb f (DLIS_FMT_FDOUB2 _)); [|
  destruct (Ascii.eqb f (DLIS_FMT_IDENT _)
            || Ascii.eqb f (DLIS_FMT_UNITS _)); [|
  destruct (Ascii.eqb f (DLIS_FMT_ASCII _)); [|
  destruct (Ascii.eqb f (DLIS_FMT_OBNAME _)); [|
  destruct (Ascii.eqb f (DLIS_FMT_OBJREF _)); [|
  destruct (Ascii.eqb f (DLIS_FMT_ATTREF _)); [|
  destruct (Ascii.eqb f (DLIS_FMT_DTIME _)) ] ] ] ] ] ] ] ] ].

Section Fields.

Context (cat : catalog).
Context (stray : nat -> byte).

(** A field issues no warning, leaves [expected_frameno] alone and never
    stops on the bound of a loop. *)
Lemma field_quiet mem end_ f ptr s :
  warnings (snd (field cat mem end_ f ptr s)) = warnings s /\
  expected_frameno (snd (field cat mem end_ f ptr s)) = expected_frameno s /\
  fst (field cat mem end_ f ptr s) <> OutOfFuel.
Proof.
  unfold field. unfold_cmd.
  repeat case_match; simplify_eq/=; done.
Qed.

(** The branch for [DLIS_FMT_DTIME] when the date and time exist. *)
Lemma store_dtime_ok dt v (p : nat) s :
  PyDateTime_FromDateAndTime (dlis_year cat (dtY dt)) (dtM dt) (dtD dt)
    (dtH dt) (dtMN dt) (dtS dt) (dtMS dt * 1000)%Z = Some v ->
  (store_dtime cat dt;; ret p) s = (Return p, replace_occupant v s).
Proof.
  intros Hv. unfold_cmd. rewrite Hv. cbn.
  unfold replace_occupant, slot_at. do 2 f_equal.
  by rewrite length_alter.
Qed.

(** An object field on a slot that refers to an object of the heap: the
    occupant is replaced by the object built for the field. *)
Lemma field_object mem end_ f ptr p v s :
  object_of cat mem ptr (dispatch cat f) = Some (p, v) ->
  builds_new cat mem ptr (dispatch cat f) = true ->
  slot_at (dst s) s < length (heap s) ->
  field cat mem end_ f ptr s = (Return p, replace_occupant v s).
Proof.
  intros Hobj Hnew Hslot. shape_cases f; cbn [object_of builds_new] in *;
    try discriminate Hobj.
  - destruct (dlis_fsing1 cat mem ptr) as [[p' v'] a']; simplify_eq.
    by apply install_local.
  - destruct (dlis_fsing2 cat mem ptr) as [[[p' v'] a'] b']; simplify_eq.
    by apply install_local.
  - destruct (dlis_fdoub1 cat mem ptr) as [[p' v'] a']; simplify_eq.
    by apply install_local.
  - destruct (dlis_fdoub2 cat mem ptr) as [[[p' v'] a'] b']; simplify_eq.
    by apply install_local.
  - destruct (dlis_uvari cat mem ptr) as [p' len].
    unfold py_str. destruct (utf8_valid _); simplify_eq.
    apply negb_true_iff in Hnew. rewrite Hnew.
    by apply install_local.
  - destruct (dlis_obname cat mem ptr) as [[[[p' o] c] n] i]; simplify_eq.
    by apply install_moved.
  - destruct (dlis_objref cat mem ptr) as [[[[[[p' n1] i1] o] c] n2] i2].
    simplify_eq. by apply install_moved.
  - destruct (dlis_attref cat mem ptr)
      as [[[[[[[[p' n1] i1] o] c] n2] i2] n3] i3].
    simplify_eq. by apply install_moved.
  - destruct (dlis_dtime cat mem ptr) as [p' dt].
    destruct (PyDateTime_FromDateAndTime _ _ _ _ _ _ _) eqn:Hv; simplify_eq.
    by apply store_dtime_ok.
Qed.

End Fields.

(** ** Rows and records *)

(** Closes a goal whose premise equates a thrown exception with a
    return. *)
Ltac nope := intros; simplify_eq.

Section Rows.

Context (cat : catalog).
Context (stray : nat -> byte).

Lemma fields_quiet mem end_ fmt ptr s :
  warnings (snd (fields cat mem end_ fmt ptr s)) = warnings s /\
  expected_frameno (snd (fields cat mem end_ fmt ptr s)) = expected_frameno s /\
  fst (fields cat mem end_ fmt ptr s) <> OutOfFuel.
Proof.
  revert ptr s. induction fmt as [|f rest IH]; intros ptr s; [done|].
  cbn [fields]. unfold bind.
  pose proof (field_quiet cat mem end_ f ptr s) as (Hw & He & Hf).
  destruct (field cat mem end_ f ptr s) as [[q|e|] s1]; simpl in *; try done.
  destruct (IH q s1) as (Hw' & He' & Hf'). by rewrite Hw', He'.
Qed.

Lemma frame_row_expected pre_fmt fmt post_fmt mem end_ ptr s p s' :
  frame_row cat pre_fmt fmt post_fmt mem end_ ptr s = (Return p, s') ->
  expected_frameno s' = (snd (dlis_uvari cat mem ptr) + 1)%Z /\
  warnings s' = warnings s.
Proof.
  unfold frame_row.
  destruct (dlis_uvari cat mem ptr) as [p0 frameno]; simpl.
  destruct (dlis_packflen cat pre_fmt mem p0) as [pre d0].
  unfold assert_overflow, non_sequential, bind, gets, modify, ret, throw.
  destruct (frameno =? expected_frameno s)%Z;
    (destruct (end_ <? p0 + pre); [nope|]);
    pose proof (fields_quiet mem end_ fmt (p0 + pre) s) as (Hw & _ & _);
    (destruct (fields cat mem end_ fmt (p0 + pre) s) as [[q|e|] s1];
      [|nope..]);
    (destruct (dlis_packflen cat post_fmt mem q) as [post d1]);
    cbn -[Nat.ltb]; (destruct (end_ <? q + post); [nope|]);
    intros [= <- <-]; done.
Qed.

Lemma frame_row_quiet pre_fmt fmt post_fmt mem end_ ptr s :
  warnings (snd (frame_row cat pre_fmt fmt post_fmt mem end_ ptr s))
  = warnings s /\
  fst (frame_row cat pre_fmt fmt post_fmt mem end_ ptr s) <> OutOfFuel.
Proof.
  unfold frame_row.
  destruct (dlis_uvari cat mem ptr) as [p0 frameno]; simpl.
  destruct (dlis_packflen cat pre_fmt mem p0) as [pre d0].
  unfold assert_overflow, non_sequential, bind, gets, modify, ret, throw.
  destruct (frameno =? expected_frameno s)%Z;
    (destruct (end_ <? p0 + pre); [done|]);
    pose proof (fields_quiet mem end_ fmt (p0 + pre) s) as (Hw & _ & Hf);
    (destruct (fields cat mem end_ fmt (p0 + pre) s) as [[q|e|] s1]; [|done..]);
    (destruct (dlis_packflen cat post_fmt mem q) as [post d1]);
    cbn -[Nat.ltb]; (destruct (end_ <? q + post); done).
Qed.
(** The loop body returns only at the end of the record. *)
Lemma frame_returns_end pre_fmt fmt post_fmt mem end_ ptr s p s' :
  frame cat pre_fmt fmt post_fmt mem end_ ptr s = (Return p, s') ->
  p = end_.
Proof.
  unfold frame, bind.
  destruct (frame_row _ _ _ _ _ _ _ _) as [[q|e|] s1]; [|done..].
  destruct (q =? end_) eqn:Heq; [|done].
  apply Nat.eqb_eq in Heq. unfold ret. by intros [= <- <-].
Qed.

(** [while (ptr < end)] makes one turn at most: a bound of one suffices. *)
Lemma frames_once fuel pre_fmt fmt post_fmt mem end_ ptr s :
  frames cat (S fuel) pre_fmt fmt post_fmt mem end_ ptr s
  = if ptr <? end_
    then match frame cat pre_fmt fmt post_fmt mem end_ ptr s with
         | (Return _, s') => (Return tt, s')
         | (Throw e, s') => (Throw e, s')
         | (OutOfFuel, s') => (OutOfFuel, s')
         end
    else (Return tt, s).
Proof.
  cbn [frames]. destruct (ptr <? end_); [|done].
  unfold bind.
  destruct (frame _ _ _ _ _ _ _ _) as [[q|e|] s1] eqn:Hframe; [|done..].
  apply frame_returns_end in Hframe as ->.
  destruct fuel; cbn [frames]; by rewrite Nat.ltb_irrefl.
Qed.

Lemma frame_quiet pre_fmt fmt post_fmt mem end_ ptr s :
  warnings (snd (frame cat pre_fmt fmt post_fmt mem end_ ptr s))
  = warnings s /\
  fst (frame cat pre_fmt fmt post_fmt mem end_ ptr s) <> OutOfFuel.
Proof.
  unfold frame, bind.
  pose proof (frame_row_quiet pre_fmt fmt post_fmt mem end_ ptr s) as [Hw Hf].
  destruct (frame_row _ _ _ _ _ _ _ _) as [[q|e|] s1]; [|done..].
  by destruct (q =? end_).
Qed.

(** A record: no warning, and the loop is not cut short by its bound. *)
Lemma read_record_quiet pre_fmt fmt post_fmt r s :
  warnings (snd (read_record cat stray pre_fmt fmt post_fmt r s))
  = warnings s /\
  fst (read_record cat stray pre_fmt fmt post_fmt r s) <> OutOfFuel.
Proof.
  unfold read_record. destruct (isencrypted r); [done|].
  destruct (dlis_obname _ _ _) as [[[[p o] c] n] i].
  rewrite frames_once. destruct (p <? length (data r)); [|done].
  pose proof (frame_quiet pre_fmt fmt post_fmt (bytes_of stray r)
                (length (data r)) p s) as [Hw Hf].
  by destruct (frame _ _ _ _ _ _ _ _) as [[q|e|] s1].
Qed.


End Rows.

Section Records.

Context (cat : catalog).
Context (stray : nat -> byte).

Lemma read_records_app pre_fmt fmt post_fmt file is1 is2 s :
  read_records cat stray pre_fmt fmt post_fmt file (is1 ++ is2) s
  = match read_records cat stray pre_fmt fmt post_fmt file is1 s with
    | (Return _, s1) =>
      read_records cat stray pre_fmt fmt post_fmt file is2 s1
    | other => other
    end.
Proof.
  revert s. induction is1 as [|i is1 IH]; intros s; [done|].
  cbn [app read_records]. unfold bind.
  destruct (stream_at file i s) as [[r|e|] s0]; [|done..].
  destruct (read_record _ _ _ _ _ _ _) as [[[]|e|] s1]; [|done..].
  apply IH.
Qed.

Lemma stream_at_record file i s :
  stream_at file i s
  = match record_at file i with
    | Some r => (Return r, s)
    | None => (Throw (out_of_range "record index"), s)
    end.
Proof. unfold stream_at, record_at. by repeat case_match. Qed.

(** No call issues a warning, and no loop of the model is cut short. *)
Lemma read_records_quiet pre_fmt fmt post_fmt file indices s :
  warnings (snd (read_records cat stray pre_fmt fmt post_fmt file indices s))
  = warnings s /\
  fst (read_records cat stray pre_fmt fmt post_fmt file indices s)
  <> OutOfFuel.
Proof.
  revert s. induction indices as [|i rest IH]; intros s; [done|].
  cbn [read_records]. unfold bind. rewrite stream_at_record.
  destruct (record_at file i) as [r|]; [|done].
  pose proof (read_record_quiet cat stray pre_fmt fmt post_fmt r s) as [Hw Hf].
  destruct (read_record _ _ _ _ _ _ _) as [[[]|e|] s1]; [|done..].
  destruct (IH s1) as [Hw' Hf']. simpl in *. by rewrite Hw'.
Qed.

End Records.

(** ** Rows written stay as they are *)

Section Prefix.

Context (cat : catalog).
Context (stray : nat -> byte).

Lemma keeps_rows_refl s : keeps_rows s s.
Proof. by split. Qed.

Lemma keeps_rows_trans s1 s2 s3 :
  keeps_rows s1 s2 -> keeps_rows s2 s3 -> keeps_rows s1 s3.
Proof.
  intros [Hd1 Hb1] [Hd2 Hb2]. split; [lia|].
  rewrite <- Hb1.
  replace (dst s1) with (dst s1 `min` dst s2) by lia.
  by rewrite <- !take_take, Hb2.
Qed.

Lemma take_widen len tmp d b n :
  n <= d -> take n (widen len tmp d b) = take n b.
Proof.
  intros Hn. unfold widen.
  generalize (seq 0 (Z.to_nat len)). intros l. revert b.
  induction l as [|i l IH]; intros b; [done|].
  cbn [fold_left]. rewrite IH. unfold put_char. apply take_memcpy. lia.
Qed.

Lemma field_keeps_rows mem end_ f ptr s :
  keeps_rows s (snd (field cat mem end_ f ptr s)).
Proof.
  unfold keeps_rows.
  shape_cases f; unfold_cmd; repeat case_match; simplify_eq/=;
    (split; [lia|]); try done.
  all: unfold memset; rewrite ?take_widen, ?take_memcpy by lia; done.
Qed.

Lemma fields_keeps_rows mem end_ fmt ptr s :
  keeps_rows s (snd (fields cat mem end_ fmt ptr s)).
Proof.
  revert ptr s. induction fmt as [|f rest IH]; intros ptr s.
  - apply keeps_rows_refl.
  - cbn [fields]. unfold bind.
    pose proof (field_keeps_rows mem end_ f ptr s) as Hf.
    destruct (field cat mem end_ f ptr s) as [[q|e|] s1]; [|done..].
    eapply keeps_rows_trans; [exact Hf|apply IH].
Qed.

Lemma frame_keeps_rows pre_fmt fmt post_fmt mem end_ ptr s :
  keeps_rows s (snd (frame cat pre_fmt fmt post_fmt mem end_ ptr s)).
Proof.
  unfold frame, frame_row.
  destruct (dlis_uvari cat mem ptr) as [p0 frameno].
  destruct (dlis_packflen cat pre_fmt mem p0) as [pre d0].
  unfold assert_overflow, non_sequential, bind, gets, modify, ret, throw.
  pose proof (fields_keeps_rows mem end_ fmt (p0 + pre) s) as Hf.
  destruct (frameno =? expected_frameno s)%Z;
    (destruct (end_ <? p0 + pre); [apply keeps_rows_refl|]);
    (destruct (fields cat mem end_ fmt (p0 + pre) s) as [[q|e|] s1];
      [|done..]);
    (destruct (dlis_packflen cat post_fmt mem q) as [post d1]);
    cbn -[Nat.ltb Nat.eqb];
    (destruct (end_ <? q + post); [done|]);
    cbn -[Nat.ltb Nat.eqb];
    by destruct (q + post =? end_).
Qed.

Lemma read_record_keeps_rows pre_fmt fmt post_fmt r s :
  keeps_rows s (snd (read_record cat stray pre_fmt fmt post_fmt r s)).
Proof.
  unfold read_record. destruct (isencrypted r); [apply keeps_rows_refl|].
  destruct (dlis_obname _ _ _) as [[[[p o] c] n] i].
  rewrite frames_once.
  destruct (p <? length (data r)); [|apply keeps_rows_refl].
  pose proof (frame_keeps_rows pre_fmt fmt post_fmt (bytes_of stray r)
                (length (data r)) p s) as Hf.
  by destruct (frame _ _ _ _ _ _ _ _) as [[q|e|] s1].
Qed.

Lemma read_records_keeps_rows pre_fmt fmt post_fmt file indices s :
  keeps_rows s
    (snd (read_records cat stray pre_fmt fmt post_fmt file indices s)).
Proof.
  revert s. induction indices as [|i rest IH]; intros s.
  - apply keeps_rows_refl.
  - cbn [read_records]. unfold bind. rewrite stream_at_record.
    destruct (record_at file i) as [r|]; [|apply keeps_rows_refl].
    pose proof (read_record_keeps_rows pre_fmt fmt post_fmt r s) as Hr.
    destruct (read_record _ _ _ _ _ _ _) as [[[]|e|] s1]; [|done..].
    eapply keeps_rows_trans; [exact Hr|apply IH].
Qed.

End Prefix.

(** ** The expected frame number *)

Section Expected.

Context (cat : catalog).
Context (stray : nat -> byte).

(** A field does not look at [expected_frameno]. *)
Lemma field_expected e mem end_ f ptr s :
  field cat mem end_ f ptr (set_expected_frameno e s)
  = (fst (field cat mem end_ f ptr s),
     set_expected_frameno e (snd (field cat mem end_ f ptr s))).
Proof.
  shape_cases f; unfold_cmd; repeat case_match; simplify_eq/=; done.
Qed.

Lemma fields_expected e mem end_ fmt ptr s :
  fields cat mem end_ fmt ptr (set_expected_frameno e s)
  = (fst (fields cat mem end_ fmt ptr s),
     set_expected_frameno e (snd (fields cat mem end_ fmt ptr s))).
Proof.
  revert ptr s. induction fmt as [|f rest IH]; intros ptr s; [done|].
  cbn [fields]. unfold bind. rewrite field_expected.
  destruct (field cat mem end_ f ptr s) as [[q|x|] s1]; [|done..].
  apply IH.
Qed.

(** The row is decoded in the same way whatever frame number is expected:
    the same outcome, the same bytes stored, the same objects. *)
Lemma frame_row_expected_any e pre_fmt fmt post_fmt mem end_ ptr s :
  let r := frame_row cat pre_fmt fmt post_fmt mem end_ ptr s in
  let r' := frame_row cat pre_fmt fmt post_fmt mem end_ ptr
                      (set_expected_frameno e s) in
  fst r' = fst r /\ dst (snd r') = dst (snd r) /\
  buf (snd r') = buf (snd r) /\ heap (snd r') = heap (snd r) /\
  warnings (snd r') = warnings (snd r).
Proof.
  unfold frame_row.
  destruct (dlis_uvari cat mem ptr) as [p0 frameno].
  destruct (dlis_packflen cat pre_fmt mem p0) as [pre d0].
  unfold assert_overflow, non_sequential, bind, gets, modify, ret, throw.
  cbn -[Nat.ltb].
  assert (forall b1 : bool,
    (if b1 then fun s0 : state => (@Return unit tt, s0)
     else fun s0 : state => (Return tt, s0))
     = fun s0 => (Return tt, s0)) as Hif by (by intros []).
  rewrite !Hif.
  destruct (end_ <? p0 + pre); [done|].
  rewrite fields_expected.
  destruct (fields cat mem end_ fmt (p0 + pre) s) as [[q|x|] s1]; [|done..].
  cbn -[Nat.ltb].
  destruct (dlis_packflen cat post_fmt mem q) as [post d1].
  by destruct (end_ <? q + post).
Qed.

End Expected.
(** * What is written to the buffer *)

(** ** Identifiers *)

Lemma uint32_of_char_range c : (0 <= uint32_of_char c < 2 ^ 32)%Z.
Proof. unfold uint32_of_char. apply Z.mod_pos_bound. lia. Qed.

Lemma length_widen len tmp d b : length (widen len tmp d b) = length b.
Proof.
  unfold widen. generalize (seq 0 (Z.to_nat len)). intros l. revert b.
  induction l as [|i l IH]; intros b; [done|].
  cbn [fold_left]. rewrite IH. apply length_memcpy.
Qed.

(** After [n] turns of the loop, the first [n] code units are the widened
    characters, and the others are as they were. *)
Lemma widen_units tmp d b n i :
  d + ident_size <= length b -> n <= chars -> i < chars ->
  le_value (peek (d + i * sizeof_uint32) sizeof_uint32
              (fold_left (put_char tmp d) (seq 0 n) b))
  = if i <? n then uint32_of_char (default 0%Z (tmp !! i))
    else le_value (peek (d + i * sizeof_uint32) sizeof_uint32 b).
Proof.
  intros Hin Hn Hi. induction n as [|n IH].
  - done.
  - rewrite seq_S, fold_left_app. cbn [fold_left plus].
    set (b' := fold_left (put_char tmp d) (seq 0 n) b) in *.
    assert (length b' = length b) as Hlen.
    { unfold b'. clear. generalize (seq 0 n). intros l. revert b.
      induction l as [|j l IH]; intros b; [done|].
      cbn [fold_left]. rewrite IH. apply length_memcpy. }
    unfold put_char at 1. unfold ident_size, chars, sizeof_uint32 in *.
    destruct (decide (i = n)) as [->|Hne].
    + replace (n <? S n) with true by (symmetry; apply Nat.ltb_lt; lia).
      rewrite <- (length_le_bytes 4 (uint32_of_char (default 0%Z (tmp !! n))))
        at 2.
      rewrite peek_memcpy by (rewrite length_le_bytes; lia).
      apply le_value_le_bytes. apply uint32_of_char_range.
    + rewrite peek_memcpy_other by (rewrite length_le_bytes; lia).
      rewrite IH by lia.
      destruct (i <? n) eqn:H1, (i <? S n) eqn:H2; try done.
      * apply Nat.ltb_lt in H1. apply Nat.ltb_ge in H2. lia.
      * apply Nat.ltb_ge in H1. apply Nat.ltb_lt in H2. lia.
Qed.

Lemma lookup_widen len tmp d b j :
  (0 <= len <= 255)%Z -> j < d \/ d + ident_size <= j ->
  widen len tmp d b !! j = b !! j.
Proof.
  intros Hlen Hj. unfold widen.
  assert (forall i, i ∈ seq 0 (Z.to_nat len) -> i < chars) as Hall.
  { intros i Hi%elem_of_seq. unfold chars. lia. }
  revert Hall. generalize (seq 0 (Z.to_nat len)). intros l. revert b.
  induction l as [|i l IH]; intros b Hall; [done|].
  cbn [fold_left]. rewrite IH by (intros; apply Hall; by right).
  assert (i < chars) by (apply Hall; by left).
  unfold put_char, ident_size, chars, sizeof_uint32 in *.
  destruct Hj; [apply lookup_memcpy_lt|apply lookup_memcpy_ge];
    rewrite ?length_le_bytes; lia.
Qed.

Lemma peek_memset_zero o d n b :
  d <= o -> o + sizeof_uint32 <= d + n -> d + n <= length b ->
  le_value (peek o sizeof_uint32 (memset d 0%Z n b)) = 0%Z.
Proof.
  intros H1 H2 H3.
  assert (peek o sizeof_uint32 (memset d 0%Z n b) = replicate 4 0%Z) as ->;
    [|done].
  apply list_eq; intros i. unfold sizeof_uint32 in *.
  destruct (decide (i < 4)) as [Hi|Hi].
  - rewrite lookup_peek by done. unfold memset.
    rewrite lookup_memcpy by (rewrite length_replicate; lia).
    rewrite !lookup_replicate_2 by lia. done.
  - rewrite !lookup_ge_None_2; [done|simpl; lia|rewrite length_peek; lia].
Qed.

(** In the encoding of RP66 the length of an identifier is one byte: it
    is at most 255, the capacity of the slot. *)
Lemma rp66_ident_fits mem p :
  (0 <= mem p <= 255)%Z ->
  (0 <= snd (fst (dlis_ident rp66 mem p)) <= 255)%Z /\
  length (snd (dlis_ident rp66 mem p))
  = Z.to_nat (snd (fst (dlis_ident rp66 mem p))).
Proof.
  intros Hbyte. cbn [dlis_ident rp66]. unfold RP66.ident. cbn [fst snd].
  split; [done|]. by rewrite length_map, length_seq.
Qed.

(** A field of code IDENT or UNITS takes the length and the characters
    [dlis_ident] gives; when the length is at most 255, it fills the slot
    of 255 code units of 32 bits with [std::uint32_t(tmp[i])] for each
    character and zero for the rest, and moves to the next slot. *)
Lemma ident_slot cat mem end_ f ptr s p len tmp :
  dispatch cat f = SIdent ->
  dlis_ident cat mem ptr = (p, len, tmp) ->
  (0 <= len <= 255)%Z ->
  dst s + ident_size <= length (buf s) ->
  exists s',
    field cat mem end_ f ptr s = (Return p, s') /\
    dst s' = dst s + ident_size /\
    heap s' = heap s /\
    length (buf s') = length (buf s) /\
    (forall i, i < chars ->
       code_unit (dst s) i s'
       = if i <? Z.to_nat len then uint32_of_char (default 0%Z (tmp !! i))
         else 0%Z) /\
    (forall j, j < dst s \/ dst s + ident_size <= j ->
       buf s' !! j = buf s !! j).
Proof.
  intros Hshape Hident Hlen Hin.
  shape_cases f; try discriminate Hshape. rewrite Hident.
  eexists. split; [reflexivity|].
  unfold modify, bind; cbn [fst snd dst heap buf set_buf set_dst].
  repeat split.
  - cbn [buf set_dst set_buf]. rewrite length_widen. apply length_inserts.
  - intros i Hi. unfold code_unit. cbn [buf set_dst set_buf]. unfold widen.
    rewrite widen_units; [| |unfold chars; lia|done].
    + destruct (i <? Z.to_nat len); [done|].
      apply peek_memset_zero; unfold ident_size, chars, sizeof_uint32 in *;
        lia.
    + unfold memset. by rewrite length_memcpy.
  - intros j Hj. cbn [buf set_dst set_buf].
    rewrite lookup_widen by done. unfold memset.
    destruct Hj; [apply lookup_memcpy_lt|apply lookup_memcpy_ge];
      rewrite ?length_replicate; lia.
Qed.

(** ** The heap keeps its objects *)

Lemma value_alter d a (h : list pyobject) b :
  ob_val <$> alter (add_ref d) a h !! b = ob_val <$> h !! b.
Proof.
  destruct (decide (a = b)) as [->|Hne].
  - rewrite list_lookup_alter_eq. by destruct (h !! b).
  - by rewrite list_lookup_alter_ne.
Qed.

Lemma heap_keeps_refl h : heap_keeps h h.
Proof. by intros a v. Qed.

Lemma heap_keeps_trans h1 h2 h3 :
  heap_keeps h1 h2 -> heap_keeps h2 h3 -> heap_keeps h1 h3.
Proof. intros H12 H23 a v Ha. by apply H23, H12. Qed.

Lemma heap_keeps_alter d a h : heap_keeps h (alter (add_ref d) a h).
Proof. intros b v. by rewrite value_alter. Qed.

Lemma heap_keeps_app h news : heap_keeps h (h ++ news).
Proof.
  intros a v Ha. destruct (h !! a) as [o|] eqn:Ho; [|done].
  by rewrite (lookup_app_l_Some _ _ _ _ Ho).
Qed.

(** What [find_str] finds is a [str] of the text. *)
Lemma find_str_value text h a :
  find_str text h = Some a -> ob_val <$> h !! a = Some (PyStr text).
Proof.
  revert a. induction h as [|o h IH]; intros a; [done|].
  cbn [find_str].
  destruct (ob_val o) as [| |t| | | |] eqn:Ho;
    try (destruct (find_str text h) as [a'|]; [|done];
         intros [= <-]; by apply IH).
  case_bool_decide as Ht.
  - intros [= <-]. subst t. cbn. by rewrite Ho.
  - destruct (find_str text h) as [a'|]; [|done].
    intros [= <-]. by apply IH.
Qed.

Lemma find_str_lt text h a : find_str text h = Some a -> a < length h.
Proof.
  intros Ha%find_str_value. apply lookup_lt_is_Some.
  destruct (h !! a); [by eexists|done].
Qed.

(** ** A pointer that is stored can be read back *)

Lemma slot_at_memcpy (a : nat) (s s' : state) :
  dst s + sizeof_ptr <= length (buf s) ->
  (Z.of_nat a < 2 ^ 64)%Z ->
  buf s' = memcpy (dst s) (le_bytes sizeof_ptr (Z.of_nat a)) (buf s) ->
  slot_at (dst s) s' = a.
Proof.
  intros Hin Hfit Hbuf. unfold slot_at. rewrite Hbuf.
  rewrite <- (length_le_bytes sizeof_ptr (Z.of_nat a)) at 1.
  rewrite peek_memcpy by (by rewrite length_le_bytes).
  rewrite le_value_le_bytes; [lia|].
  change (256 ^ Z.of_nat sizeof_ptr)%Z with (2 ^ 64)%Z. lia.
Qed.

(** ** The cell of an object *)

Ltac heap_facts :=
  repeat first
    [ apply heap_keeps_refl
    | eapply heap_keeps_trans; [|apply heap_keeps_alter]
    | eapply heap_keeps_trans; [|apply heap_keeps_app] ].

Lemma fills_local (v : pyval) (p : nat) (s : state) :
  exists s', (let* t := py_new v in swap_pointer_local t;; ret p) s
             = (Return p, s') /\ fills_slot v s s'.
Proof.
  eexists. split; [reflexivity|].
  exists (length (heap s)). unfold value_at. cbn.
  repeat split; try done.
  - heap_facts.
  - rewrite !length_alter, length_app. simpl. lia.
  - rewrite !value_alter. by rewrite lookup_app_r, Nat.sub_diag.
Qed.

Lemma fills_moved (v : pyval) (p : nat) (s : state) :
  exists s', (let* o := py_new v in swap_pointer o;; ret p) s
             = (Return p, s') /\ fills_slot v s s'.
Proof.
  eexists. split; [reflexivity|].
  exists (length (heap s)). unfold value_at. cbn.
  repeat split; try done.
  - heap_facts.
  - rewrite !length_alter, length_app. simpl. lia.
  - rewrite !value_alter. by rewrite lookup_app_r, Nat.sub_diag.
Qed.

Lemma fills_shared (text : list byte) (p : nat) (s : state) :
  exists s', (let* t := py_shared text in swap_pointer_local t;; ret p) s
             = (Return p, s') /\ fills_slot (PyStr text) s s'.
Proof.
  unfold bind at 1, py_shared.
  destruct (find_str text (heap s)) as [a|] eqn:Hfind.
  - eexists. split; [reflexivity|].
    exists a. unfold value_at. cbn.
    repeat split; try done.
    + apply find_str_lt in Hfind. lia.
    + heap_facts.
    + rewrite !length_alter. lia.
    + rewrite !value_alter. by apply find_str_value.
  - eexists. split; [reflexivity|].
    exists (length (heap s)). unfold value_at. cbn.
    repeat split; try done.
    + heap_facts.
    + rewrite !length_alter, length_app. simpl. lia.
    + rewrite !value_alter. by rewrite lookup_app_r, Nat.sub_diag.
Qed.

Lemma fills_dtime cat dt v (p : nat) s :
  PyDateTime_FromDateAndTime (dlis_year cat (dtY dt)) (dtM dt) (dtD dt)
    (dtH dt) (dtMN dt) (dtS dt) (dtMS dt * 1000)%Z = Some v ->
  exists s', (store_dtime cat dt;; ret p) s = (Return p, s') /\
             fills_slot v s s'.
Proof.
  intros Hv. rewrite (store_dtime_ok cat dt v p s Hv).
  eexists. split; [reflexivity|].
  exists (length (heap s)). unfold value_at, replace_occupant. cbn [dst buf heap].
  repeat split; try done.
  - heap_facts.
  - rewrite length_app, length_alter. simpl. lia.
  - by rewrite lookup_app_r, length_alter, Nat.sub_diag by (by rewrite length_alter).
Qed.

Lemma fills_slot_written v s s' :
  fills_slot v s s' ->
  dst s + sizeof_ptr <= length (buf s) ->
  (Z.of_nat (length (heap s)) < 2 ^ 64)%Z ->
  written sizeof_ptr 1 s s' /\ holds_cell (dst s) (CObject v) s'.
Proof.
  intros (a & Ha & Hdst & Hbuf & Hkeeps & Hlen & Hval) Hin Hfit.
  split.
  - repeat split; try done.
    + rewrite Hbuf. apply length_memcpy.
    + intros j Hj. rewrite Hbuf.
      destruct Hj; [apply lookup_memcpy_lt|apply lookup_memcpy_ge];
        rewrite ?length_le_bytes; lia.
  - cbn [holds_cell]. by rewrite (slot_at_memcpy a s s') by (done || lia).
Qed.

Section Fills.

Context (cat : catalog).
Context (stray : nat -> byte).

(** An object field whose object can be built gives its slot the address
    of an object of that value. *)
Lemma object_fills mem end_ f ptr p v s :
  object_of cat mem ptr (dispatch cat f) = Some (p, v) ->
  exists s', field cat mem end_ f ptr s = (Return p, s') /\
             fills_slot v s s'.
Proof.
  intros Hobj. shape_cases f; cbn [object_of] in Hobj;
    try discriminate Hobj.
  - destruct (dlis_fsing1 cat mem ptr) as [[p' v'] a']; simplify_eq.
    apply fills_local.
  - destruct (dlis_fsing2 cat mem ptr) as [[[p' v'] a'] b']; simplify_eq.
    apply fills_local.
  - destruct (dlis_fdoub1 cat mem ptr) as [[p' v'] a']; simplify_eq.
    apply fills_local.
  - destruct (dlis_fdoub2 cat mem ptr) as [[[p' v'] a'] b']; simplify_eq.
    apply fills_local.
  - destruct (dlis_uvari cat mem ptr) as [p' len].
    unfold py_str. destruct (utf8_valid _); [|done]. simplify_eq.
    destruct (shared_text _); [apply fills_shared|apply fills_local].
  - destruct (dlis_obname cat mem ptr) as [[[[p' o] c] n] i]; simplify_eq.
    apply fills_moved.
  - destruct (dlis_objref cat mem ptr) as [[[[[[p' n1] i1] o] c] n2] i2].
    simplify_eq. apply fills_moved.
  - destruct (dlis_attref cat mem ptr)
      as [[[[[[[[p' n1] i1] o] c] n2] i2] n3] i3].
    simplify_eq. apply fills_moved.
  - destruct (dlis_dtime cat mem ptr) as [p' dt].
    destruct (PyDateTime_FromDateAndTime _ _ _ _ _ _ _) eqn:Hv; simplify_eq.
    by apply fills_dtime.
Qed.

(** A field that is decoded within the record fills its cell: the cell
    holds what [field_cell] says, nothing else of the buffer has changed,
    and the heap has kept its objects. *)
Lemma field_fills mem end_ f ptr p c s :
  field_cell cat mem end_ f ptr = Some (p, c) ->
  dst s + cell_width c <= length (buf s) ->
  (Z.of_nat (length (heap s)) < 2 ^ 64)%Z ->
  exists s',
    field cat mem end_ f ptr s = (Return p, s') /\
    written (cell_width c) 1 s s' /\
    holds_cell (dst s) c s'.
Proof.
  unfold field_cell. intros Hcell Hin Hfit.
  destruct (dispatch cat f) eqn:Hshape.
  all: try (destruct (object_of cat mem ptr _) as [[q v]|] eqn:Hobj;
            [|done]; rewrite <- Hshape in Hobj;
            destruct (q <=? end_); [|done]; simplify_eq;
            cbn [cell_width] in Hin;
            destruct (object_fills mem end_ f ptr p v s Hobj)
              as (s' & Hrun & Hfill);
            exists s'; split; [done|]; by apply fills_slot_written).
  - (* IDENT, UNITS *)
    destruct (dlis_ident cat mem ptr) as [[p' len] tmp] eqn:Hident.
    destruct ((0 <=? len) && (len <=? 255))%Z eqn:Hlen; [|done].
    case_match; simplify_eq. cbn [cell_width] in Hin.
    destruct (ident_slot cat mem end_ f ptr s p len tmp Hshape Hident)
      as (s' & Hrun & Hdst & Hheap & Hbuf & Hunits & Hframe);
      [lia|done|].
    exists s'. split; [done|]. split; [|done].
    repeat split; try done.
    + rewrite Hheap. apply heap_keeps_refl.
    + rewrite Hheap. lia.
  - (* the generic path *)
    destruct (dlis_packflen cat (String f EmptyString) mem ptr)
      as [src_skip dst_skip] eqn:Hlen.
    destruct (length _ =? dst_skip) eqn:Hout; [|done].
    case_match eqn:Hwithin; simplify_eq. cbn [cell_width] in Hin.
    apply Nat.leb_le in Hwithin. apply Nat.eqb_eq in Hout.
    shape_cases f; try discriminate Hshape.
    unfold packf_field. rewrite Hlen. unfold assert_overflow.
    replace (end_ <? ptr + src_skip) with false
      by (symmetry; apply Nat.ltb_ge; lia).
    eexists. split; [reflexivity|].
    unfold written. cbn [dst buf heap set_dst set_buf holds_cell cell_width].
    repeat split.
    + by rewrite Hout.
    + apply length_memcpy.
    + intros j Hj.
      destruct Hj; [apply lookup_memcpy_lt|apply lookup_memcpy_ge]; lia.
    + apply heap_keeps_refl.
    + lia.
    + by apply peek_memcpy.
Qed.

End Fills.

(** ** What is written stays *)

Lemma peek_ext o n (b1 b2 : list byte) :
  (forall j, o <= j < o + n -> b2 !! j = b1 !! j) ->
  peek o n b2 = peek o n b1.
Proof.
  intros Hsame. unfold peek. apply list_fmap_ext.
  intros i j Hj. apply lookup_seq in Hj as [-> Hi].
  by rewrite Hsame by lia.
Qed.

Lemma written_refl s : written 0 0 s s.
Proof.
  unfold written. split; [lia|]. do 2 (split; [done|]).
  split; [apply heap_keeps_refl|lia].
Qed.

Lemma written_trans w1 g1 w2 g2 s1 s2 s3 :
  written w1 g1 s1 s2 -> written w2 g2 s2 s3 ->
  written (w1 + w2) (g1 + g2) s1 s3.
Proof.
  intros (Hd1 & Hl1 & Hf1 & Hk1 & Hg1) (Hd2 & Hl2 & Hf2 & Hk2 & Hg2).
  repeat split.
  - lia.
  - congruence.
  - intros j Hj. rewrite Hf2, Hf1; [done|lia|lia].
  - by eapply heap_keeps_trans.
  - lia.
Qed.

(** A cell below [dst] holds what it held, whatever is written next. *)
Lemma holds_cell_stable o c w g s1 s2 :
  holds_cell o c s1 -> o + cell_width c <= dst s1 -> written w g s1 s2 ->
  holds_cell o c s2.
Proof.
  intros Hcell Hbelow (_ & _ & Hframe & Hkeeps & _).
  assert (forall p n, p + n <= dst s1 ->
            peek p n (buf s2) = peek p n (buf s1)) as Hpeek.
  { intros p n Hp. apply peek_ext. intros j Hj. apply Hframe. lia. }
  destruct c as [bs|len tmp|v]; cbn [holds_cell cell_width] in *.
  - by rewrite Hpeek.
  - intros i Hi. rewrite <- (Hcell i Hi). unfold code_unit.
    rewrite Hpeek; [done|].
    unfold ident_size, chars, sizeof_uint32 in *. clear -Hbelow Hi. lia.
  - unfold slot_at, value_at in *. rewrite Hpeek by done. by apply Hkeeps.
Qed.

Lemma cells_width_cons c cs :
  cells_width (c :: cs) = cell_width c + cells_width cs.
Proof. done. Qed.

Lemma rows_width_cons cs rows :
  rows_width (cs :: rows) = cells_width cs + rows_width rows.
Proof. done. Qed.

Lemma holds_cells_stable o cs w g s1 s2 :
  holds_cells o cs s1 -> o + cells_width cs <= dst s1 -> written w g s1 s2 ->
  holds_cells o cs s2.
Proof.
  revert o. induction cs as [|c cs IH]; intros o; [done|].
  cbn [holds_cells]. rewrite cells_width_cons.
  intros [Hc Hcs] Hbelow Hw. split.
  - apply (holds_cell_stable o c w g s1 s2); [done|lia|done].
  - apply IH; [done|lia|done].
Qed.

Section RowCells.

Context (cat : catalog).
Context (stray : nat -> byte).

(** The fields of a row fill their cells, one after the other. *)
Lemma fields_fill mem end_ fmt ptr p cs s :
  fields_cells cat mem end_ fmt ptr = Some (p, cs) ->
  dst s + cells_width cs <= length (buf s) ->
  (Z.of_nat (length (heap s) + length cs) < 2 ^ 64)%Z ->
  exists s',
    fields cat mem end_ fmt ptr s = (Return p, s') /\
    written (cells_width cs) (length cs) s s' /\
    holds_cells (dst s) cs s' /\
    expected_frameno s' = expected_frameno s.
Proof.
  revert ptr cs s. induction fmt as [|f fmt IH]; intros ptr cs s.
  - intros [= <- <-] _ _. exists s. repeat split; try done.
    all: try apply written_refl.
  - cbn [fields_cells].
    destruct (field_cell cat mem end_ f ptr) as [[q c]|] eqn:Hc; [|done].
    destruct (fields_cells cat mem end_ fmt q) as [[q' cs']|] eqn:Hcs;
      [|done].
    intros [= <- <-]. rewrite cells_width_cons. cbn [length].
    intros Hin Hfit.
    destruct (field_fills cat mem end_ f ptr q c s Hc) as (s1 & Hrun1 & Hw1 & Hh1);
      [lia|lia|].
    pose proof Hw1 as (Hd1 & Hl1 & _ & _ & Hg1).
    destruct (IH q cs' s1 Hcs) as (s2 & Hrun2 & Hw2 & Hh2 & He2); [lia|lia|].
    exists s2. cbn [fields]. unfold bind. rewrite Hrun1.
    split; [done|]. split; [|split].
    + replace (S (length cs')) with (1 + length cs') by lia.
      by eapply written_trans.
    + cbn [holds_cells]. split.
      * apply (holds_cell_stable (dst s) c (cells_width cs') (length cs')
                 s1 s2 Hh1); [lia|done].
      * by rewrite <- Hd1.
    + rewrite He2.
      pose proof (field_quiet cat mem end_ f ptr s) as (_ & He & _).
      by rewrite Hrun1 in He.
Qed.

(** One row of a record. *)
Lemma frame_row_fills pre_fmt fmt post_fmt mem end_ ptr p cs s :
  row_cells cat pre_fmt fmt post_fmt mem end_ ptr = Some (p, cs) ->
  dst s + cells_width cs <= length (buf s) ->
  (Z.of_nat (length (heap s) + length cs) < 2 ^ 64)%Z ->
  exists s',
    frame_row cat pre_fmt fmt post_fmt mem end_ ptr s = (Return p, s') /\
    written (cells_width cs) (length cs) s s' /\
    holds_cells (dst s) cs s'.
Proof.
  unfold row_cells, frame_row.
  destruct (dlis_uvari cat mem ptr) as [p0 frameno].
  destruct (dlis_packflen cat pre_fmt mem p0) as [pre d0].
  destruct (end_ <? p0 + pre) eqn:Hpre; [done|].
  destruct (fields_cells cat mem end_ fmt (p0 + pre)) as [[q cs']|] eqn:Hf;
    [|done].
  destruct (dlis_packflen cat post_fmt mem q) as [post d1] eqn:Hq.
  destruct (end_ <? q + post) eqn:Hpost; [done|].
  intros [= <- <-] Hin Hfit.
  destruct (fields_fill _ _ _ _ _ _ s Hf Hin Hfit) as (s1 & Hs1 & Hw & Hh & _).
  exists (set_expected_frameno (frameno + 1) s1).
  unfold assert_overflow, non_sequential, bind, gets, modify, ret, throw.
  rewrite Hpre.
  split; [|split; [exact Hw|]].
  - destruct (frameno =? expected_frameno s)%Z; rewrite Hs1, Hq, Hpost; done.
  - pose proof Hw as (Hd & _).
    apply (holds_cells_stable (dst s) cs' 0 0 s1); [done|lia|].
    exact (written_refl s1).
Qed.

(** A record that holds one row: the loop body runs once, to the end. *)
Lemma read_record_fills pre_fmt fmt post_fmt r cs s :
  one_row_cells cat stray pre_fmt fmt post_fmt r = Some cs ->
  dst s + cells_width cs <= length (buf s) ->
  (Z.of_nat (length (heap s) + length cs) < 2 ^ 64)%Z ->
  exists s',
    read_record cat stray pre_fmt fmt post_fmt r s = (Return tt, s') /\
    written (cells_width cs) (length cs) s s' /\
    holds_cells (dst s) cs s'.
Proof.
  unfold one_row_cells, read_record, rows_start.
  destruct (isencrypted r); [done|].
  destruct (dlis_obname _ _ _) as [[[[p0 o] c] n] i].
  rewrite frames_once.
  destruct (p0 <? length (data r)); [|done].
  destruct (row_cells _ _ _ _ _ _ _) as [[p cs']|] eqn:Hrow; [|done].
  destruct (p =? length (data r)) eqn:Hend; [|done].
  intros [= ->] Hin Hfit. apply Nat.eqb_eq in Hend as ->.
  destruct (frame_row_fills _ _ _ _ _ _ _ _ s Hrow Hin Hfit)
    as (s' & Hs' & Hw & Hh).
  exists s'. unfold frame, bind. rewrite Hs', Nat.eqb_refl. done.
Qed.

(** Records that hold one row each: the rows are in the buffer, one after
    the other, in the order of the indices. *)
Lemma read_records_fill pre_fmt fmt post_fmt file indices rows s :
  rows_cells cat stray pre_fmt fmt post_fmt file indices = Some rows ->
  dst s + rows_width rows <= length (buf s) ->
  (Z.of_nat (length (heap s) + length (concat rows)) < 2 ^ 64)%Z ->
  exists s',
    read_records cat stray pre_fmt fmt post_fmt file indices s
    = (Return tt, s') /\
    length rows = length indices /\
    written (rows_width rows) (length (concat rows)) s s' /\
    holds_rows (dst s) rows s'.
Proof.
  revert rows s. induction indices as [|i rest IH]; intros rows s Hrows.
  - simpl in Hrows. simplify_eq. intros _ _. exists s.
    repeat split; try done. all: try apply written_refl.
  - cbn [rows_cells] in Hrows.
    destruct (record_at file i) as [r|] eqn:Hr; [|done].
    destruct (one_row_cells _ _ _ _ _ r) as [cs|] eqn:Hone; [|done].
    destruct (rows_cells _ _ _ _ _ file rest) as [rows'|] eqn:Hrest; [|done].
    simplify_eq. rewrite rows_width_cons. cbn [concat].
    rewrite length_app. intros Hin Hfit.
    destruct (read_record_fills _ _ _ _ _ s Hone) as (s1 & Hs1 & Hw1 & Hh1);
      [lia|lia|].
    pose proof Hw1 as (Hd1 & Hl1 & _ & _ & Hg1).
    destruct (IH _ s1 eq_refl) as (s2 & Hs2 & Hlen & Hw2 & Hh2); [lia|lia|].
    exists s2. cbn [read_records]. unfold bind.
    rewrite stream_at_record, Hr, Hs1, Hs2.
    split; [done|]. split; [simpl; by rewrite Hlen|]. split.
    + by eapply written_trans.
    + cbn [holds_rows]. split.
      * apply (holds_cells_stable (dst s) cs (rows_width rows')
                 (length (concat rows')) s1 s2 Hh1); [lia|done].
      * by rewrite <- Hd1.
Qed.

End RowCells.

(** * The claims of the specification *)

(** What [read_fdata] does with the indices that follow records it has
    decoded. *)
Lemma read_fdata_app cat stray pre_fmt fmt post_fmt file is1 is2 s s1 :
  read_fdata cat stray pre_fmt fmt post_fmt file is1 s = (Return tt, s1) ->
  read_fdata cat stray pre_fmt fmt post_fmt file (is1 ++ is2) s
  = read_records cat stray pre_fmt fmt post_fmt file is2 s1.
Proof.
  unfold read_fdata, bind, modify. rewrite read_records_app.
  destruct (read_records _ _ _ _ _ _ is1 _) as [[[]|e|] s0]; [|done..].
  by intros [= ->].
Qed.

(** ** One row for each record *)




(** The frame of 3.5 and 2.0: the two numbers in the byte order of the
    host, and 2 as the next frame number. *)
Lemma frame_1_decodes :
  read_fdata rp66 zeros no_fmt "fF" no_fmt [frame_1] [0%Z] (fresh 12 1)
  = (Return tt,
     {| dst := 12; expected_frameno := 2;
        buf := [0; 0; 96; 64; 0; 0; 0; 0; 0; 0; 0; 64]%Z;
        heap := [{| ob_refcnt := 1; ob_val := PyNone |}];
        warnings := [] |}).
Proof. vm_compute. reflexivity. Qed.

(** ** The bounds check *)

(** On the generic path a field that would read past the end of the record
    throws before anything is stored: the state is left as it was. *)
Lemma packed_field_overflow cat mem end_ f ptr s :
  dispatch cat f = SPacked ->
  end_ < ptr + fst (dlis_packflen cat (String f EmptyString) mem ptr) ->
  field cat mem end_ f ptr s
  = (Throw (runtime_error "corrupted record: fmtstr would read past end"), s).
Proof.
  intros Hshape Hover. shape_cases f; try discriminate Hshape.
  unfold packf_field.
  destruct (dlis_packflen _ _ _ _) as [src_skip dst_skip]; simpl in Hover.
  unfold assert_overflow, bind, throw.
  apply Nat.ltb_lt in Hover. by rewrite Hover.
Qed.

Lemma packed_field_overflow_witness :
  dispatch rp66 "F" = SPacked /\
  field rp66 (bytes_of zeros truncated) 9 "F" 5 (fresh 8 1)
  = (Throw (runtime_error "corrupted record: fmtstr would read past end"),
     fresh 8 1).
Proof.
  split; [reflexivity|].
  apply (packed_field_overflow rp66 (bytes_of zeros truncated) 9 "F" 5
           (fresh 8 1)).
  - reflexivity.
  - vm_compute; lia.
Defined.

(** The rows of records that have been decoded stay as they are, whatever
    happens with the records after them. *)
Lemma read_fdata_keeps_rows cat stray pre_fmt fmt post_fmt file done rest
  s s1 :
  read_fdata cat stray pre_fmt fmt post_fmt file done s = (Return tt, s1) ->
  keeps_rows s1
    (snd (read_fdata cat stray pre_fmt fmt post_fmt file (done ++ rest) s)).
Proof.
  intros Hdone. rewrite (read_fdata_app _ _ _ _ _ _ _ _ _ _ Hdone).
  apply read_records_keeps_rows.
Qed.

Lemma read_fdata_keeps_rows_witness :
  keeps_rows
    {| dst := 4; expected_frameno := 6;
       buf := [0; 0; 96; 64; 0; 0; 0; 0]%Z;
       heap := [{| ob_refcnt := 1; ob_val := PyNone |}];
       warnings := [] |}
    (snd (read_fdata rp66 zeros no_fmt "f" no_fmt [frame_5; two_frames]
            ([0%Z] ++ [1%Z]) (fresh 8 1))).
Proof.
  apply (read_fdata_keeps_rows rp66 zeros no_fmt "f" no_fmt
           [frame_5; two_frames] [0%Z] [1%Z] (fresh 8 1)).
  vm_compute; reflexivity.
Defined.

(** C2, the code at the failing input.  The record [truncated] ends four
    bytes into a field of code FSING1.  The field is decoded from the four
    bytes and the four that follow the record, its tuple replaces the
    occupant of the slot (the eight bytes of the slot change, [None] loses
    its reference), and only the check for the span of [post_fmt] throws
    the [std::runtime_error] of a corrupted record. *)
Lemma truncated_field_is_stored :
  read_fdata rp66 zeros no_fmt "b" no_fmt [truncated] [0%Z] (fresh 8 1)
  = (Throw (runtime_error "corrupted record: fmtstr would read past end"),
     {| dst := 8; expected_frameno := 2;
        buf := [1; 0; 0; 0; 0; 0; 0; 0]%Z;
        heap := [{| ob_refcnt := 0; ob_val := PyNone |};
                 {| ob_refcnt := 1;
                    ob_val := PyTuple [of_float 1080033280; of_float 0] |}];
        warnings := [] |}) /\
  buf (fresh 8 1) = [0; 0; 0; 0; 0; 0; 0; 0]%Z.
Proof. vm_compute. split; reflexivity. Qed.

(** The same frame in a record that ends two bytes early: the check of
    the double throws, after the single float has been stored. *)
Lemma frame_1_cut_short :
  read_fdata rp66 zeros no_fmt "fF" no_fmt
    [fdata (take 15 (data frame_1))] [0%Z] (fresh 12 1)
  = (Throw (runtime_error "corrupted record: fmtstr would read past end"),
     {| dst := 4; expected_frameno := 1;
        buf := [0; 0; 96; 64; 0; 0; 0; 0; 0; 0; 0; 0]%Z;
        heap := [{| ob_refcnt := 1; ob_val := PyNone |}];
        warnings := [] |}).
Proof. vm_compute. reflexivity. Qed.

(** Every branch but the generic one decodes its field in the same way
    wherever the record ends: it does not look at [end]. *)
Lemma special_field_ignores_end cat mem end1 end2 f ptr s :
  unchecked (dispatch cat f) = true ->
  field cat mem end1 f ptr s = field cat mem end2 f ptr s.
Proof.
  intros Hshape. by shape_cases f; try discriminate Hshape.
Qed.

Lemma special_field_ignores_end_witness :
  unchecked (dispatch rp66 "b") = true /\
  field rp66 (bytes_of zeros truncated) 9 "b" 5 (fresh 8 1)
  = field rp66 (bytes_of zeros truncated) 13 "b" 5 (fresh 8 1).
Proof.
  split; [reflexivity|].
  apply (special_field_ignores_end rp66 (bytes_of zeros truncated) 9 13 "b"
           5 (fresh 8 1)).
  reflexivity.
Defined.

(** C3, the code at the failing input.  In the record [truncated] of nine
    bytes, the field of code FSING1 at offset 5 is decoded up to offset 13
    and returns: no check of the bounds has run, where the generic path
    throws for a field of eight bytes at the same place. *)
Lemma truncated_field_is_unchecked :
  length (data truncated) = 9 /\
  fst (field rp66 (bytes_of zeros truncated) 9 "b" 5 (fresh 8 1))
  = Return 13 /\
  fst (field rp66 (bytes_of zeros truncated) 9 "F" 5 (fresh 8 1))
  = Throw (runtime_error "corrupted record: fmtstr would read past end").
Proof. vm_compute. repeat split. Qed.

(** ** More than one frame in a record *)

(** C4.  For every record in which, after the frame number, the fields
    and the span of [post_fmt] of one row, the cursor is not at the end of
    the record, [read_fdata] throws [dl::not_implemented] with "multiple
    frames in one FDATA": the call fails as a whole, the records after it
    are not read, and the state is the one the first row left, so that no
    second row has been decoded. *)
Theorem second_frame_not_implemented cat stray pre_fmt fmt post_fmt file
  done i rest r s s1 ptr s2 :
  read_fdata cat stray pre_fmt fmt post_fmt file done s = (Return tt, s1) ->
  record_at file i = Some r ->
  isencrypted r = false ->
  rows_start cat stray r < length (data r) ->
  frame_row cat pre_fmt fmt post_fmt (bytes_of stray r) (length (data r))
            (rows_start cat stray r) s1 = (Return ptr, s2) ->
  ptr <> length (data r) ->
  read_fdata cat stray pre_fmt fmt post_fmt file (done ++ i :: rest) s
  = (Throw (not_implemented "multiple frames in one FDATA"), s2).
Proof.
  intros Hdone Hr Henc Hstart Hrow Hptr.
  rewrite (read_fdata_app _ _ _ _ _ _ _ _ _ _ Hdone).
  cbn [read_records]. unfold bind. rewrite stream_at_record, Hr.
  unfold read_record. rewrite Henc.
  unfold rows_start in *.
  destruct (dlis_obname _ _ _) as [[[[p0 o] c] n] j].
  rewrite frames_once.
  apply Nat.ltb_lt in Hstart. rewrite Hstart.
  unfold frame, bind. rewrite Hrow.
  apply Nat.eqb_neq in Hptr. by rewrite Hptr.
Qed.

Lemma second_frame_not_implemented_witness :
  read_fdata rp66 zeros no_fmt "f" no_fmt [frame_5; two_frames] [0%Z]
    (fresh 8 1)
  = (Return tt,
     {| dst := 4; expected_frameno := 6;
        buf := [0; 0; 96; 64; 0; 0; 0; 0]%Z;
        heap := [{| ob_refcnt := 1; ob_val := PyNone |}];
        warnings := [] |}) /\
  read_fdata rp66 zeros no_fmt "f" no_fmt [frame_5; two_frames]
    ([0%Z] ++ [1%Z]) (fresh 8 1)
  = (Throw (not_implemented "multiple frames in one FDATA"),
     {| dst := 8; expected_frameno := 2;
        buf := [0; 0; 96; 64; 0; 0; 96; 64]%Z;
        heap := [{| ob_refcnt := 1; ob_val := PyNone |}];
        warnings := [] |}).
Proof.
  split; [vm_compute; reflexivity|].
  apply (second_frame_not_implemented rp66 zeros no_fmt "f" no_fmt
           [frame_5; two_frames] [0%Z] 1%Z [] two_frames (fresh 8 1)
           {| dst := 4; expected_frameno := 6;
              buf := [0; 0; 96; 64; 0; 0; 0; 0]%Z;
              heap := [{| ob_refcnt := 1; ob_val := PyNone |}];
              warnings := [] |} 9).
  - vm_compute; reflexivity.
  - vm_compute; reflexivity.
  - reflexivity.
  - vm_compute; lia.
  - vm_compute; reflexivity.
  - vm_compute; lia.
Defined.

(** ** Frame numbers out of sequence *)

(** C5, the code at the failing input.  A record with frame number 5 where
    1 is expected is decoded, and [expected_frameno] becomes 6, but no
    warning is issued: the body of the test for the mismatch is empty. *)
Lemma frame_5_is_silent :
  read_fdata rp66 zeros no_fmt "f" no_fmt [frame_5] [0%Z] (fresh 4 1)
  = (Return tt,
     {| dst := 4; expected_frameno := 6; buf := [0; 0; 96; 64]%Z;
        heap := [{| ob_refcnt := 1; ob_val := PyNone |}];
        warnings := [] |}).
Proof. vm_compute. reflexivity. Qed.

(** [read_fdata] never issues a warning, and always ends: the bound of the
    model's loop is never what stops it. *)
Lemma read_fdata_quiet cat stray pre_fmt fmt post_fmt file indices s :
  warnings (snd (read_fdata cat stray pre_fmt fmt post_fmt file indices s))
  = warnings s /\
  (exists r, fst (read_fdata cat stray pre_fmt fmt post_fmt file indices s)
             = Return r \/
             exists e,
               fst (read_fdata cat stray pre_fmt fmt post_fmt file indices s)
               = Throw e).
Proof.
  unfold read_fdata, bind, modify.
  pose proof (read_records_quiet cat stray pre_fmt fmt post_fmt file indices
                (set_expected_frameno 1 (set_dst 0 s))) as [Hw Hf].
  destruct (read_records _ _ _ _ _ _ _ _) as [[r|e|] s']; simpl in *.
  - split; [done|]. exists r. by left.
  - split; [done|]. exists tt. right. by exists e.
  - done.
Qed.

Lemma frame_row_expected_witness :
  frame_row rp66 no_fmt "f" no_fmt (bytes_of zeros frame_5) 9 4 (fresh 4 1)
  = (Return 9,
     {| dst := 4; expected_frameno := 6; buf := [0; 0; 96; 64]%Z;
        heap := [{| ob_refcnt := 1; ob_val := PyNone |}];
        warnings := [] |}) /\
  expected_frameno
    {| dst := 4; expected_frameno := 6; buf := [0; 0; 96; 64]%Z;
       heap := [{| ob_refcnt := 1; ob_val := PyNone |}];
       warnings := [] |}
  = (snd (dlis_uvari rp66 (bytes_of zeros frame_5) 4) + 1)%Z /\
  warnings
    {| dst := 4; expected_frameno := 6; buf := [0; 0; 96; 64]%Z;
       heap := [{| ob_refcnt := 1; ob_val := PyNone |}];
       warnings := [] |}
  = warnings (fresh 4 1).
Proof.
  split; [vm_compute; reflexivity|].
  apply (frame_row_expected rp66 no_fmt "f" no_fmt (bytes_of zeros frame_5)
           9 4 (fresh 4 1) 9).
  vm_compute; reflexivity.
Defined.

(** The warning that [storage_label] issues for a label that is
    inconsistent with the specification: when the identifier of the label
    is UTF-8, the call returns the dictionary made of what [dlis_sul]
    stored, after the warning. *)
Lemma storage_label_warns size ok unexpected inconsistent structure parse
  b s :
  size <= length b ->
  fst (parse b) = inconsistent ->
  inconsistent <> ok -> inconsistent <> unexpected ->
  utf8_valid (c_str (sul_id (snd (parse b)))) = true ->
  storage_label size ok unexpected inconsistent structure parse b s
  = (Return
       {| l_sequence := seqnum (snd (parse b));
          l_version := pretty (major (snd (parse b))) +:+ "."
                       +:+ pretty (minor (snd (parse b)));
          l_layout := if (layout (snd (parse b)) =? structure)%Z
                      then "record" else "unknown";
          l_maxlen := maxlen (snd (parse b));
          l_id := c_str (sul_id (snd (parse b))) |},
     set_warnings
       (warnings s ++
        ["storage unit label inconsistent with specification - falling back to assuming DLIS v1"])
       s).
Proof.
  intros Hsize Herr Hok Hun Hid. unfold storage_label.
  destruct (length b <? size) eqn:Hlt; [apply Nat.ltb_lt in Hlt; lia|].
  destruct (parse b) as [err l]; simpl in Herr, Hid; subst err.
  apply Z.eqb_neq in Hok, Hun. rewrite Hok, Hun, Z.eqb_refl.
  unfold bind, runtime_warning, modify, ret. by rewrite Hid.
Qed.

Lemma storage_label_warns_witness :
  storage_label 80 0%Z 1%Z 2%Z 0%Z
    (fun _ => (2%Z, {| seqnum := 1; major := 1; minor := 0; layout := 0;
                       maxlen := 8192; sul_id := [76; 65; 66; 0; 0]%Z |}))
    (replicate 80 32%Z) (fresh 0 1)
  = (Return
       {| l_sequence := 1; l_version := "1.0"; l_layout := "record";
          l_maxlen := 8192; l_id := [76; 65; 66]%Z |},
     set_warnings
       (warnings (fresh 0 1) ++
        ["storage unit label inconsistent with specification - falling back to assuming DLIS v1"])
       (fresh 0 1)).
Proof.
  apply (storage_label_warns 80 0%Z 1%Z 2%Z 0%Z
           (fun _ => (2%Z, {| seqnum := 1; major := 1; minor := 0;
                              layout := 0; maxlen := 8192;
                              sul_id := [76; 65; 66; 0; 0]%Z |}))
           (replicate 80 32%Z) (fresh 0 1)).
  - vm_compute; lia.
  - reflexivity.
  - lia.
  - lia.
  - reflexivity.
Defined.

(** ** Encrypted records *)

(** C6 (amended).  For every record whose encrypted flag is set,
    [read_fdata] throws [dl::not_implemented] with "encrypted FDATA
    record" -- the exception class of a record with a second frame, which
    Python sees as [NotImplementedError] -- as soon as it has fetched the
    record: the state is the one the records before it left, whatever the
    bytes of the record are. *)
Theorem encrypted_not_implemented cat stray pre_fmt fmt post_fmt file
  done i rest r s s1 :
  read_fdata cat stray pre_fmt fmt post_fmt file done s = (Return tt, s1) ->
  record_at file i = Some r ->
  isencrypted r = true ->
  read_fdata cat stray pre_fmt fmt post_fmt file (done ++ i :: rest) s
  = (Throw (not_implemented "encrypted FDATA record"), s1) /\
  translate (not_implemented "encrypted FDATA record")
  = PyExc_NotImplementedError.
Proof.
  intros Hdone Hr Henc. split; [|done].
  rewrite (read_fdata_app _ _ _ _ _ _ _ _ _ _ Hdone).
  cbn [read_records]. unfold bind. rewrite stream_at_record, Hr.
  unfold read_record. by rewrite Henc.
Qed.

Lemma encrypted_not_implemented_witness :
  read_fdata rp66 zeros no_fmt "f" no_fmt [frame_5; sealed]
    ([0%Z] ++ [1%Z]) (fresh 8 1)
  = (Throw (not_implemented "encrypted FDATA record"),
     {| dst := 4; expected_frameno := 6;
        buf := [0; 0; 96; 64; 0; 0; 0; 0]%Z;
        heap := [{| ob_refcnt := 1; ob_val := PyNone |}];
        warnings := [] |}) /\
  translate (not_implemented "encrypted FDATA record")
  = PyExc_NotImplementedError.
Proof.
  apply (encrypted_not_implemented rp66 zeros no_fmt "f" no_fmt
           [frame_5; sealed] [0%Z] 1%Z [] sealed (fresh 8 1)).
  - vm_compute; reflexivity.
  - vm_compute; reflexivity.
  - reflexivity.
Defined.

(** C6, as stated, fails: the failure for an encrypted record is of the
    kind of the failure for a second frame, not of a kind of its own. *)
Lemma encrypted_kind_is_not_implemented :
  fst (read_fdata rp66 zeros no_fmt "f" no_fmt [sealed] [0%Z] (fresh 4 1))
  = Throw (not_implemented "encrypted FDATA record") /\
  fst (read_fdata rp66 zeros no_fmt "f" no_fmt [two_frames] [0%Z] (fresh 4 1))
  = Throw (not_implemented "multiple frames in one FDATA") /\
  translate (not_implemented "encrypted FDATA record")
  = translate (not_implemented "multiple frames in one FDATA").
Proof. vm_compute. repeat split. Qed.

(** ** Ownership of object slots *)

Lemma slot_at_replace_occupant v s :
  dst s + sizeof_ptr <= length (buf s) ->
  (Z.of_nat (length (heap s)) < 2 ^ 64)%Z ->
  slot_at (dst s) (replace_occupant v s) = length (heap s).
Proof.
  intros Hin Hfit. unfold slot_at, replace_occupant. cbn [buf].
  rewrite <- (length_le_bytes sizeof_ptr (Z.of_nat (length (heap s)))) at 1.
  rewrite peek_memcpy by (by rewrite length_le_bytes).
  rewrite le_value_le_bytes; [lia|].
  change (256 ^ Z.of_nat sizeof_ptr)%Z with (2 ^ 64)%Z. lia.
Qed.

Lemma refcnt_new v s :
  refcnt (length (heap s)) (replace_occupant v s) = 1%Z /\
  value_at (length (heap s)) (replace_occupant v s) = Some v.
Proof.
  unfold refcnt, value_at, replace_occupant. cbn [heap].
  rewrite lookup_app_r by (by rewrite length_alter).
  by rewrite length_alter, Nat.sub_diag.
Qed.

Lemma refcnt_occupant v s :
  slot_at (dst s) s < length (heap s) ->
  refcnt (slot_at (dst s) s) (replace_occupant v s)
  = (refcnt (slot_at (dst s) s) s - 1)%Z.
Proof.
  intros Hslot. unfold refcnt, replace_occupant. cbn [heap].
  rewrite lookup_app_l by (by rewrite length_alter).
  rewrite list_lookup_alter_eq.
  destruct (lookup_lt_is_Some_2 (heap s) _ Hslot) as [o Ho].
  rewrite Ho. simpl. lia.
Qed.

Lemma refcnt_other v a s :
  a <> slot_at (dst s) s -> a < length (heap s) ->
  refcnt a (replace_occupant v s) = refcnt a s.
Proof.
  intros Hne Ha. unfold refcnt, replace_occupant. cbn [heap].
  rewrite lookup_app_l by (by rewrite length_alter).
  by rewrite list_lookup_alter_ne.
Qed.




(** Two calls on the same buffer: the text of the first call is released
    by the second, whose text is the one object the slot owns. *)
Lemma text_slot_reused :
  snd (read_fdata rp66 zeros no_fmt "S" no_fmt [text_xyz] [0%Z]
         (snd (read_fdata rp66 zeros no_fmt "S" no_fmt [text_ab] [0%Z]
                 (fresh 8 1))))
  = {| dst := 8; expected_frameno := 3;
       buf := [2; 0; 0; 0; 0; 0; 0; 0]%Z;
       heap := [{| ob_refcnt := 0; ob_val := PyNone |};
                {| ob_refcnt := 0; ob_val := PyStr [97; 98]%Z |};
                {| ob_refcnt := 1; ob_val := PyStr [120; 121; 122]%Z |}];
       warnings := [] |}.
Proof. vm_compute. reflexivity. Qed.

(** A date the calendar does not have: the occupant of the slot has been
    released when the exception is thrown, and the slot still refers to
    it. *)
Lemma misdated_releases_only :
  read_fdata rp66 zeros no_fmt "j" no_fmt [misdated] [0%Z] (fresh 8 1)
  = (Throw error_already_set,
     {| dst := 0; expected_frameno := 1;
        buf := [0; 0; 0; 0; 0; 0; 0; 0]%Z;
        heap := [{| ob_refcnt := 0; ob_val := PyNone |}];
        warnings := [] |}).
Proof. vm_compute. reflexivity. Qed.

(** ** Identifiers *)

(** C8, the code at the failing input.  The identifier of the record
    [named] is the two characters [H] and the degree sign of Latin-1, the
    bytes 72 and 176.  The field returns, the first code unit of the slot
    is 72, and the second is 4294967216, which is [2^32 - 256 + 176]: the
    [char] has been widened with its sign, to a code unit above the last
    code point of Unicode, where the character is 176. *)
Lemma high_character_is_sign_extended :
  dlis_ident rp66 (bytes_of zeros named) 5 = (8, 2%Z, [72; 176]%Z) /\
  fst (field rp66 (bytes_of zeros named) 8 "s" 5 (fresh 1020 1))
  = Return 8 /\
  code_unit 0 0
    (snd (field rp66 (bytes_of zeros named) 8 "s" 5 (fresh 1020 1)))
  = 72%Z /\
  code_unit 0 1
    (snd (field rp66 (bytes_of zeros named) 8 "s" 5 (fresh 1020 1)))
  = 4294967216%Z /\
  (4294967216 = 2 ^ 32 - 256 + 176)%Z /\
  (1114111 < 4294967216)%Z /\
  code_unit 0 2
    (snd (field rp66 (bytes_of zeros named) 8 "s" 5 (fresh 1020 1)))
  = 0%Z.
Proof. vm_compute. repeat split. Qed.

(** ** Dates and times *)

(** C9 (amended).  For every field of code DTIME whose components, with
    the year origin of the format added to the year, are a date and time
    of the calendar, [read_fdata] takes the eight components that
    [dlis_dtime] decodes, adds the year origin to the year, multiplies the
    milliseconds by 1000 for the microseconds of the timestamp, and puts
    the new timestamp in the slot.  The time zone code is decoded and is
    no part of the timestamp: with any other code the field stores the
    same, and the caster of [dl::dtime] builds, from the normalized
    components and any code, a new object of the same value. *)
Theorem dtime_field cat mem end_ f ptr s p dt :
  dispatch cat f = SDtime ->
  dlis_dtime cat mem ptr = (p, dt) ->
  valid_datetime (dtY dt + DLIS_YEAR_ZERO cat) (dtM dt) (dtD dt) (dtH dt)
                 (dtMN dt) (dtS dt) (dtMS dt * 1000) = true ->
  field cat mem end_ f ptr s
  = (Return p,
     replace_occupant
       (PyDateTime (dtY dt + DLIS_YEAR_ZERO cat) (dtM dt) (dtD dt) (dtH dt)
                   (dtMN dt) (dtS dt) (dtMS dt * 1000)) s) /\
  (forall tz,
     (store_dtime cat (with_tz tz dt);; ret p) s
     = (Return p,
        replace_occupant
          (PyDateTime (dtY dt + DLIS_YEAR_ZERO cat) (dtM dt) (dtD dt)
                      (dtH dt) (dtMN dt) (dtS dt) (dtMS dt * 1000)) s)) /\
  (forall tz,
     dtime_cast (with_tz tz (with_year (dtY dt + DLIS_YEAR_ZERO cat) dt)) s
     = (Return (Some (length (heap s))),
        set_heap
          (heap s ++
           [{| ob_refcnt := 1;
               ob_val := PyDateTime (dtY dt + DLIS_YEAR_ZERO cat) (dtM dt)
                           (dtD dt) (dtH dt) (dtMN dt) (dtS dt)
                           (dtMS dt * 1000) |}]) s)).
Proof.
  intros Hshape Hdt Hvalid.
  assert (PyDateTime_FromDateAndTime (dlis_year cat (dtY dt)) (dtM dt)
            (dtD dt) (dtH dt) (dtMN dt) (dtS dt) (dtMS dt * 1000)%Z
          = Some (PyDateTime (dtY dt + DLIS_YEAR_ZERO cat) (dtM dt) (dtD dt)
                             (dtH dt) (dtMN dt) (dtS dt) (dtMS dt * 1000)))
    as Hbuilt
    by (unfold PyDateTime_FromDateAndTime, dlis_year; by rewrite Hvalid).
  split; [|split].
  - shape_cases f; try discriminate Hshape. rewrite Hdt.
    by apply store_dtime_ok.
  - intros tz. by apply store_dtime_ok.
  - intros tz. unfold dtime_cast, with_tz, with_year. cbn [dtY dtM dtD dtH dtMN dtS dtMS].
    unfold PyDateTime_FromDateAndTime. by rewrite Hvalid.
Qed.

Lemma dtime_field_witness :
  dispatch rp66 "j" = SDtime /\
  field rp66 (bytes_of zeros dated) 13 "j" 5 (fresh 8 1)
  = (Return 13,
     replace_occupant (PyDateTime 1987 4 19 21 20 15 62000) (fresh 8 1)) /\
  (forall tz,
     (store_dtime rp66
        (with_tz tz {| dtY := 87; dtTZ := 0; dtM := 4; dtD := 19; dtH := 21;
                       dtMN := 20; dtS := 15; dtMS := 62 |});; ret 13)
       (fresh 8 1)
     = (Return 13,
        replace_occupant (PyDateTime 1987 4 19 21 20 15 62000)
          (fresh 8 1))) /\
  (forall tz,
     dtime_cast
       (with_tz tz
          (with_year 1987
             {| dtY := 87; dtTZ := 0; dtM := 4; dtD := 19; dtH := 21;
                dtMN := 20; dtS := 15; dtMS := 62 |})) (fresh 8 1)
     = (Return (Some 1),
        set_heap
          (heap (fresh 8 1) ++
           [{| ob_refcnt := 1;
               ob_val := PyDateTime 1987 4 19 21 20 15 62000 |}])
          (fresh 8 1))).
Proof.
  split; [reflexivity|].
  apply (dtime_field rp66 (bytes_of zeros dated) 13 "j" 5 (fresh 8 1) 13
           {| dtY := 87; dtTZ := 0; dtM := 4; dtD := 19; dtH := 21;
              dtMN := 20; dtS := 15; dtMS := 62 |}).
  - reflexivity.
  - vm_compute; reflexivity.
  - vm_compute; reflexivity.
Defined.

(** C9, as stated, fails: the field of code DTIME of the record [misdated]
    decodes month 0, for which Python has no date; the field throws
    [py::error_already_set] and no timestamp is produced: the heap holds
    no object but [None]. *)
Lemma month_0_gives_no_timestamp :
  dispatch rp66 "j" = SDtime /\
  dlis_dtime rp66 (bytes_of zeros misdated) 5
  = (13, {| dtY := 87; dtTZ := 0; dtM := 0; dtD := 19; dtH := 21;
            dtMN := 20; dtS := 15; dtMS := 62 |}) /\
  fst (field rp66 (bytes_of zeros misdated) 13 "j" 5 (fresh 8 1))
  = Throw error_already_set /\
  ob_val <$> heap (snd (field rp66 (bytes_of zeros misdated) 13 "j" 5
                          (fresh 8 1)))
  = [PyNone].
Proof. vm_compute. repeat split. Qed.

(** ** The fingerprint *)


(** The fingerprint of the reference of type FRAME to the object of origin
    2, copy 0 and identifier [A]; and no fingerprint for copy 256. *)
Lemma fingerprint_examples :
  fingerprint [70; 82; 65; 77; 69]%Z [65]%Z 2 0
  = Return [70; 82; 65; 77; 69; 45; 50; 45; 48; 45; 65]%Z /\
  fingerprint [70; 82; 65; 77; 69]%Z [65]%Z 2 256
  = Throw (invalid_argument "Invalid argument, copy out of range") /\
  fingerprint [70; 82; 65; 77; 69]%Z [65]%Z 2 (-1)
  = Throw (invalid_argument "Invalid argument, copy out of range").
Proof. vm_compute. repeat split. Qed.

(** * The casters of the text types *)

(** ** [find] and [insert] of [std::string] *)

Lemma str_find_skip c pre rest :
  str_find c (pre ++ rest) (length pre)
  = (fun k => length pre + k) <$> str_find c rest 0.
Proof.
  induction pre as [|b pre IH]; cbn [app length str_find].
  - by destruct (str_find c rest 0).
  - rewrite IH. by destruct (str_find c rest 0).
Qed.

(** What [find] from the start gives: nothing when the character does not
    occur, and else the place of its first occurrence. *)
Lemma str_find_first c src :
  match str_find c src 0 with
  | None => c ∉ src
  | Some pos => exists l1 l2, src = l1 ++ c :: l2 /\ length l1 = pos /\ c ∉ l1
  end.
Proof.
  induction src as [|b src IH]; cbn [str_find].
  - apply not_elem_of_nil.
  - destruct (Z.eqb_spec b c) as [->|Hne].
    + exists [], src. repeat split. apply not_elem_of_nil.
    + destruct (str_find c src 0) as [pos|]; cbn.
      * destruct IH as (l1 & l2 & -> & <- & Hl1).
        exists (b :: l1), l2. repeat split.
        apply not_elem_of_cons. done.
      * apply not_elem_of_cons. done.
Qed.

Lemma str_insert_at c l1 l2 :
  str_insert (length l1) c (l1 ++ l2) = l1 ++ c :: l2.
Proof.
  unfold str_insert. by rewrite take_app_length, drop_app_length.
Qed.

(** ** The repaired text *)

Lemma degree_fix_app l1 l2 :
  degree_fix (l1 ++ l2) = degree_fix l1 ++ degree_fix l2.
Proof.
  induction l1 as [|b l1 IH]; [done|].
  cbn [app degree_fix]. rewrite IH. by destruct (b =? degree)%Z.
Qed.

Lemma degree_fix_degree rest :
  degree_fix (degree :: rest) = utf8_lead :: degree :: degree_fix rest.
Proof. done. Qed.

Lemma degree_fix_none src : degree ∉ src -> degree_fix src = src.
Proof.
  induction src as [|b src IH]; [done|].
  intros [Hb Hsrc]%not_elem_of_cons. cbn [degree_fix].
  rewrite IH by done. destruct (Z.eqb_spec b degree); [congruence|done].
Qed.

(** The loop, entered after a degree sign has got its lead byte: it ends
    within as many turns as there are bytes left, and has then put the
    lead byte before every degree sign that follows. *)
Lemma insert_leads_fix fuel source pos pre rest :
  source = pre ++ [utf8_lead; degree] ++ rest ->
  pos = length pre ->
  length rest <= fuel ->
  insert_leads fuel source pos
  = Return (pre ++ [utf8_lead; degree] ++ degree_fix rest).
Proof.
  revert source pos pre rest.
  induction fuel as [|fuel IH]; intros source pos pre rest -> -> Hfuel.
  all: cbn [insert_leads].
  all: replace (length pre + 2) with (length (pre ++ [utf8_lead; degree]))
         by (rewrite length_app; simpl; lia).
  all: rewrite (assoc_L (++)), str_find_skip.
  all: pose proof (str_find_first degree rest) as Hfind.
  all: destruct (str_find degree rest 0) as [pos|];
         cbn [fmap option_fmap option_map];
         [|rewrite degree_fix_none by done; by rewrite <- (assoc_L (++))].
  all: destruct Hfind as (l1 & l2 & -> & <- & Hl1).
  all: rewrite length_app in Hfuel; simpl in Hfuel.
  1: lia.
  rewrite <- length_app, (assoc_L (++)), str_insert_at.
  rewrite (IH _ _ ((pre ++ [utf8_lead; degree]) ++ l1) l2);
    [|by rewrite <- !(assoc_L (++))|done|lia].
  rewrite degree_fix_app, (degree_fix_none l1) by done.
  rewrite degree_fix_degree. by rewrite <- !(assoc_L (++)).
Qed.

(** [maybe_decode], loop and handlers resolved. *)
Lemma maybe_decode_eq src :
  maybe_decode src
  = Return (if utf8_valid src then Str src
            else if utf8_valid (degree_fix src) then Str (degree_fix src)
            else Bytes src).
Proof.
  unfold maybe_decode, str_of_string, bytes_of_string.
  destruct (utf8_valid src) eqn:Hsrc; [done|]. cbn [catch_runtime_error].
  pose proof (str_find_first degree src) as Hfind.
  destruct (str_find degree src 0) as [pos|].
  - destruct Hfind as (l1 & l2 & -> & <- & Hl1).
    rewrite str_insert_at.
    rewrite (insert_leads_fix _ _ _ l1 l2); [|done|done|].
    + rewrite degree_fix_app, (degree_fix_none l1) by done.
      rewrite degree_fix_degree. cbn [app].
      by destruct (utf8_valid (l1 ++ utf8_lead :: _)).
    + rewrite length_app. simpl. lia.
  - rewrite degree_fix_none, Hsrc by done. done.
Qed.

(** ** Well-formed UTF-8 *)

Lemma second_of_three_continuation b0 b1 :
  second_of_three b0 b1 = true -> continuation b1 = true.
Proof. unfold second_of_three, continuation. repeat case_match; lia. Qed.

Lemma second_of_four_continuation b0 b1 :
  second_of_four b0 b1 = true -> continuation b1 = true.
Proof. unfold second_of_four, continuation. repeat case_match; lia. Qed.

(** The first character of well-formed text: a byte of ASCII, or a byte
    from 128 up that is followed by one, two or three continuation
    bytes. *)
Lemma utf8_valid_cons b0 r0 :
  utf8_valid (b0 :: r0) = true ->
  ((0 <= b0 < 128)%Z /\ utf8_valid r0 = true) \/
  ((128 <= b0)%Z /\
   exists b1 r1, r0 = b1 :: r1 /\ continuation b1 = true /\
     (utf8_valid r1 = true \/
      exists b2 r2, r1 = b2 :: r2 /\ continuation b2 = true /\
        (utf8_valid r2 = true \/
         exists b3 r3, r2 = b3 :: r3 /\ continuation b3 = true /\
           utf8_valid r3 = true))).
Proof.
  cbn [utf8_valid].
  destruct ((0 <=? b0) && (b0 <? 128))%Z eqn:Hascii.
  { intros Hr0. left. split; [lia|done]. }
  destruct r0 as [|b1 r1]; [done|].
  destruct ((194 <=? b0) && (b0 <=? 223))%Z eqn:Htwo.
  { intros [Hb1 Hr1]%andb_true_iff. right. split; [lia|]. eauto 10. }
  destruct r1 as [|b2 r2]; [done|].
  destruct ((224 <=? b0) && (b0 <=? 239))%Z eqn:Hthree.
  { intros [[Hb1%second_of_three_continuation Hb2]%andb_true_iff
            Hr2]%andb_true_iff.
    right. split; [lia|]. eauto 15. }
  destruct r2 as [|b3 r3]; [done|].
  intros [[[[Hb0 Hb1%second_of_four_continuation]%andb_true_iff
            Hb2]%andb_true_iff Hb3]%andb_true_iff Hr3]%andb_true_iff.
  right. split; [lia|]. eauto 20.
Qed.

Lemma utf8_valid_ascii b r :
  (0 <= b < 128)%Z -> utf8_valid (b :: r) = utf8_valid r.
Proof.
  intros Hb. cbn [utf8_valid].
  replace ((0 <=? b) && (b <? 128))%Z with true; [done|].
  symmetry. apply andb_true_iff. lia.
Qed.

Lemma utf8_valid_degree r :
  utf8_valid (utf8_lead :: degree :: r) = utf8_valid r.
Proof. done. Qed.

(** A continuation byte does not start a character. *)
Lemma utf8_valid_continuation b r :
  continuation b = true -> utf8_valid (b :: r) = false.
Proof.
  unfold continuation. intros Hb. cbn [utf8_valid].
  replace ((0 <=? b) && (b <? 128))%Z with false by lia.
  destruct r as [|b1 r1]; [done|].
  replace ((194 <=? b) && (b <=? 223))%Z with false by lia.
  destruct r1 as [|b2 r2]; [done|].
  replace ((224 <=? b) && (b <=? 239))%Z with false by lia.
  destruct r2 as [|b3 r3]; [done|].
  replace ((240 <=? b) && (b <=? 244))%Z with false by lia.
  done.
Qed.

(** In well-formed text the byte C2 starts a character of two bytes: the
    byte after it is a continuation byte. *)
Lemma utf8_valid_after_lead n x b y :
  length x <= n ->
  utf8_valid (x ++ utf8_lead :: b :: y) = true -> continuation b = true.
Proof.
  revert x. induction n as [|n IH]; intros x Hn Hvalid.
  - destruct x; [|simpl in Hn; lia]. cbn [app] in Hvalid.
    apply andb_true_iff in Hvalid. tauto.
  - destruct x as [|a x].
    { cbn [app] in Hvalid. apply andb_true_iff in Hvalid. tauto. }
    simpl in Hn. cbn [app] in Hvalid.
    apply utf8_valid_cons in Hvalid
      as [[_ Hr]|[_ (b1 & r1 & Hx & Hb1 & Hr1)]].
    { apply (IH x); [lia|done]. }
    destruct x as [|a1 x]; cbn [app] in Hx; simplify_eq; try done.
    simpl in Hn.
    destruct Hr1 as [Hr|(b2 & r2 & Hx & Hb2 & Hr2)].
    { apply (IH x); [lia|done]. }
    destruct x as [|a2 x]; cbn [app] in Hx; simplify_eq; try done.
    simpl in Hn.
    destruct Hr2 as [Hr|(b3 & r3 & Hx & Hb3 & Hr3)].
    { apply (IH x); [lia|done]. }
    destruct x as [|a3 x]; cbn [app] in Hx; simplify_eq; try done.
    simpl in Hn. apply (IH x); [lia|done].
Qed.

(** Text of ASCII and degree signs of Latin-1 is well-formed once it is
    repaired, and is well-formed as it is only without a degree sign. *)
Lemma utf8_valid_degree_fix src :
  Forall ascii_or_degree src -> utf8_valid (degree_fix src) = true.
Proof.
  induction 1 as [|b src [Hb| ->] _ IH]; [done| |].
  - cbn [degree_fix]. destruct (Z.eqb_spec b degree) as [->|_].
    + by rewrite utf8_valid_degree.
    + by rewrite utf8_valid_ascii.
  - by rewrite degree_fix_degree, utf8_valid_degree.
Qed.

Lemma utf8_valid_no_degree src :
  Forall ascii_or_degree src -> utf8_valid src = true -> degree ∉ src.
Proof.
  induction 1 as [|b src [Hb| ->] _ IH].
  - intros _. apply not_elem_of_nil.
  - rewrite utf8_valid_ascii by done. intros Hsrc.
    apply not_elem_of_cons. split; [unfold degree; lia|by apply IH].
  - by rewrite utf8_valid_continuation.
Qed.

(** [maybe_decode] does not throw.  The [str] it returns is well-formed
    UTF-8: the text itself, or, when the text is not well-formed, the text
    with the lead byte put before every degree sign of Latin-1.  The
    [bytes] it returns are the text itself, when neither is well-formed. *)
Theorem maybe_decode_cases src :
  exists v,
    maybe_decode src = Return v /\
    match v with
    | Str text =>
      utf8_valid text = true /\
      (text = src \/ utf8_valid src = false /\ text = degree_fix src)
    | Bytes raw =>
      raw = src /\ utf8_valid src = false /\
      utf8_valid (degree_fix src) = false
    end.
Proof.
  eexists. split; [apply maybe_decode_eq|].
  destruct (utf8_valid src) eqn:Hsrc; [by auto|].
  destruct (utf8_valid (degree_fix src)) eqn:Hfix; by auto.
Qed.

(** Units written in ASCII with the degree sign of Latin-1 reach Python as
    a [str] in which every degree sign is the one of UTF-8. *)
Theorem units_cast_degrees src :
  Forall ascii_or_degree src ->
  units_cast src = Return (Str (degree_fix src)).
Proof.
  intros Hsrc. unfold units_cast. rewrite maybe_decode_eq.
  rewrite (utf8_valid_degree_fix _ Hsrc).
  destruct (utf8_valid src) eqn:Hvalid; [|done].
  by rewrite degree_fix_none by by apply utf8_valid_no_degree.
Qed.

Lemma units_cast_degrees_witness :
  Forall ascii_or_degree [100; 101; 103; 176; 67]%Z /\
  units_cast [100; 101; 103; 176; 67]%Z
  = Return (Str (degree_fix [100; 101; 103; 176; 67]%Z)).
Proof.
  assert (Forall ascii_or_degree [100; 101; 103; 176; 67]%Z) as Hsrc.
  { repeat constructor; unfold ascii_or_degree, degree; lia. }
  split; [exact Hsrc|].
  apply (units_cast_degrees [100; 101; 103; 176; 67]%Z Hsrc).
Defined.

(** Text that is not well-formed and holds a degree sign of UTF-8 reaches
    Python as [bytes]: the repair puts a second lead byte before the
    degree sign that has one. *)
Theorem ascii_cast_mixed l1 l2 :
  utf8_valid (l1 ++ utf8_lead :: degree :: l2) = false ->
  ascii_cast (l1 ++ utf8_lead :: degree :: l2)
  = Return (Bytes (l1 ++ utf8_lead :: degree :: l2)).
Proof.
  intros Hsrc. unfold ascii_cast. rewrite maybe_decode_eq, Hsrc.
  destruct (utf8_valid (degree_fix _)) eqn:Hfix; [|done].
  rewrite degree_fix_app in Hfix.
  change (degree_fix (utf8_lead :: degree :: l2))
    with (utf8_lead :: utf8_lead :: degree :: degree_fix l2) in Hfix.
  by apply (utf8_valid_after_lead (length (degree_fix l1))) in Hfix.
Qed.

Lemma ascii_cast_mixed_witness :
  utf8_valid ([] ++ utf8_lead :: degree :: [degree]) = false /\
  ascii_cast ([] ++ utf8_lead :: degree :: [degree])
  = Return (Bytes ([] ++ utf8_lead :: degree :: [degree])).
Proof.
  split; [reflexivity|].
  apply (ascii_cast_mixed [] [degree]). reflexivity.
Defined.

(** * More on [read_fdata] *)

(** ** Fields whose object cannot be built *)

(** A field of code DTIME whose components are no date and time of the
    calendar: [PyDateTime_FromDateAndTime] gives the null pointer after
    the occupant of the slot has been released, and the field throws
    [py::error_already_set].  The occupant has lost its reference; the
    bytes of the slot and [dst] are as they were, so that the slot still
    holds the address of the occupant. *)
Theorem dtime_invalid_releases cat mem end_ f ptr s p dt :
  dispatch cat f = SDtime ->
  dlis_dtime cat mem ptr = (p, dt) ->
  valid_datetime (dlis_year cat (dtY dt)) (dtM dt) (dtD dt) (dtH dt)
                 (dtMN dt) (dtS dt) (dtMS dt * 1000) = false ->
  field cat mem end_ f ptr s
  = (Throw error_already_set,
     set_heap (alter (add_ref (-1)) (slot_at (dst s) s) (heap s)) s).
Proof.
  intros Hshape Hdt Hvalid. shape_cases f; try discriminate Hshape.
  rewrite Hdt. unfold store_dtime, PyDateTime_FromDateAndTime.
  rewrite Hvalid. reflexivity.
Qed.

Lemma dtime_invalid_releases_witness :
  dispatch rp66 "j" = SDtime /\
  field rp66 (bytes_of zeros late) 13 "j" 5 (fresh 8 1)
  = (Throw error_already_set,
     set_heap (alter (add_ref (-1)) (slot_at (dst (fresh 8 1)) (fresh 8 1))
                 (heap (fresh 8 1))) (fresh 8 1)).
Proof.
  split; [reflexivity|].
  apply (dtime_invalid_releases rp66 (bytes_of zeros late) 13 "j" 5
           (fresh 8 1) 13
           {| dtY := 87; dtTZ := 0; dtM := 4; dtD := 19; dtH := 21;
              dtMN := 20; dtS := 15; dtMS := 1000 |}).
  - reflexivity.
  - vm_compute; reflexivity.
  - vm_compute; reflexivity.
Defined.

(** A field of code ASCII whose text is no UTF-8: [py::str] throws the
    [std::runtime_error] of pybind11 before the slot is looked at, and the
    buffer and the heap are as they were. *)
Theorem ascii_invalid_untouched cat mem end_ f ptr s p len :
  dispatch cat f = SAscii ->
  dlis_uvari cat mem ptr = (p, len) ->
  utf8_valid (map mem (seq p (Z.to_nat len))) = false ->
  field cat mem end_ f ptr s
  = (Throw (runtime_error "Could not allocate string object!"), s).
Proof.
  intros Hshape Hlen Hvalid. shape_cases f; try discriminate Hshape.
  rewrite Hlen. unfold py_str. rewrite Hvalid. reflexivity.
Qed.

Lemma ascii_invalid_untouched_witness :
  dispatch rp66 "S" = SAscii /\
  field rp66 (bytes_of zeros text_raw) 7 "S" 5 (fresh 8 1)
  = (Throw (runtime_error "Could not allocate string object!"), fresh 8 1).
Proof.
  split; [reflexivity|].
  apply (ascii_invalid_untouched rp66 (bytes_of zeros text_raw) 7 "S" 5
           (fresh 8 1) 6 1%Z).
  - reflexivity.
  - vm_compute; reflexivity.
  - vm_compute; reflexivity.
Defined.

(** ** Characters of an identifier from 128 up *)

(** [std::uint32_t(tmp[i])] widens a [char] with its sign: a byte [b] of
    an identifier from 128 up is stored as the code unit [2^32 - 256 + b],
    which is above the last code point of Unicode. *)
Theorem ident_high_byte cat mem end_ f ptr s p len tmp i b :
  dispatch cat f = SIdent ->
  dlis_ident cat mem ptr = (p, len, tmp) ->
  (0 <= len <= 255)%Z ->
  dst s + ident_size <= length (buf s) ->
  i < Z.to_nat len ->
  tmp !! i = Some b ->
  (128 <= b <= 255)%Z ->
  code_unit (dst s) i (snd (field cat mem end_ f ptr s))
  = (2 ^ 32 - 256 + b)%Z /\
  (1114111 < 2 ^ 32 - 256 + b)%Z.
Proof.
  intros Hshape Hident Hlen Hin Hi Hb Hhigh. split; [|lia].
  shape_cases f; try discriminate Hshape. rewrite Hident.
  unfold advance, modify, bind, ret; cbn [fst snd]. unfold code_unit.
  cbn [buf set_dst set_buf dst]. unfold widen.
  rewrite widen_units;
    [|unfold memset; by rewrite length_memcpy|unfold chars; lia
     |unfold chars; lia].
  replace (i <? Z.to_nat len) with true by (symmetry; apply Nat.ltb_lt; lia).
  rewrite Hb. cbn [default from_option Datatypes.id]. unfold uint32_of_char.
  replace (b <? 128)%Z with false by lia. cbv iota.
  replace (b - 256)%Z with (2 ^ 32 - 256 + b + -1 * 2 ^ 32)%Z by lia.
  rewrite Z_mod_plus_full. apply Z.mod_small. lia.
Qed.

Lemma ident_high_byte_witness :
  dispatch rp66 "s" = SIdent /\
  code_unit (dst (fresh 1020 1)) 1
    (snd (field rp66 (bytes_of zeros named) 8 "s" 5 (fresh 1020 1)))
  = (2 ^ 32 - 256 + 176)%Z /\
  (1114111 < 2 ^ 32 - 256 + 176)%Z.
Proof.
  split; [reflexivity|].
  apply (ident_high_byte rp66 (bytes_of zeros named) 8 "s" 5 (fresh 1020 1)
           8 2%Z [72; 176]%Z 1 176%Z).
  - reflexivity.
  - vm_compute; reflexivity.
  - lia.
  - vm_compute; lia.
  - vm_compute; lia.
  - reflexivity.
  - lia.
Defined.

(** ** Records without a row *)

(** A record that ends with the name of its frame, or before the name
    ends: [while (ptr < end)] is not entered, and the call goes on with
    the records that follow as if the index were not there.  No row is
    written for the record and the expected frame number stays. *)
Theorem record_without_rows cat stray pre_fmt fmt post_fmt file done i rest
  r s s1 :
  read_fdata cat stray pre_fmt fmt post_fmt file done s = (Return tt, s1) ->
  record_at file i = Some r ->
  isencrypted r = false ->
  length (data r) <= rows_start cat stray r ->
  read_fdata cat stray pre_fmt fmt post_fmt file (done ++ i :: rest) s
  = read_fdata cat stray pre_fmt fmt post_fmt file (done ++ rest) s.
Proof.
  intros Hdone Hr Hplain Hend.
  rewrite !(read_fdata_app _ _ _ _ _ _ _ _ _ _ Hdone).
  cbn [read_records]. unfold bind at 1. rewrite stream_at_record, Hr.
  unfold bind at 1, read_record. rewrite Hplain.
  unfold rows_start in Hend.
  destruct (dlis_obname _ _ _) as [[[[p0 o] c] n] id0].
  rewrite frames_once.
  by replace (p0 <? length (data r)) with false
    by (symmetry; apply Nat.ltb_ge; lia).
Qed.

Lemma record_without_rows_witness :
  read_fdata rp66 zeros no_fmt "fF" no_fmt [frame_1; name_only; frame_2]
    ([0%Z] ++ 1%Z :: [2%Z]) (fresh 24 1)
  = read_fdata rp66 zeros no_fmt "fF" no_fmt [frame_1; name_only; frame_2]
      ([0%Z] ++ [2%Z]) (fresh 24 1).
Proof.
  apply (record_without_rows rp66 zeros no_fmt "fF" no_fmt
           [frame_1; name_only; frame_2] [0%Z] 1%Z [2%Z] name_only
           (fresh 24 1)
           (snd (read_fdata rp66 zeros no_fmt "fF" no_fmt
                   [frame_1; name_only; frame_2] [0%Z] (fresh 24 1)))).
  - vm_compute; reflexivity.
  - reflexivity.
  - reflexivity.
  - vm_compute; lia.
Defined.

(** ** The first record that fails *)

(** The exception of the first record that fails ends the call: the
    records after it are not read, and the state is the one in which the
    exception was thrown, with the rows of the records before it. *)
Theorem read_fdata_first_failure cat stray pre_fmt fmt post_fmt file done i
  rest r e s s1 s2 :
  read_fdata cat stray pre_fmt fmt post_fmt file done s = (Return tt, s1) ->
  record_at file i = Some r ->
  read_record cat stray pre_fmt fmt post_fmt r s1 = (Throw e, s2) ->
  read_fdata cat stray pre_fmt fmt post_fmt file (done ++ i :: rest) s
  = (Throw e, s2).
Proof.
  intros Hdone Hr Hfail.
  rewrite (read_fdata_app _ _ _ _ _ _ _ _ _ _ Hdone).
  cbn [read_records]. unfold bind at 1. rewrite stream_at_record, Hr.
  unfold bind at 1. by rewrite Hfail.
Qed.

Lemma read_fdata_first_failure_witness :
  read_fdata rp66 zeros no_fmt "j" no_fmt [dated; misdated; dated]
    ([0%Z] ++ 1%Z :: [2%Z]) (fresh 24 1)
  = (Throw error_already_set,
     snd (read_record rp66 zeros no_fmt "j" no_fmt misdated
            (snd (read_fdata rp66 zeros no_fmt "j" no_fmt
                    [dated; misdated; dated] [0%Z] (fresh 24 1))))).
Proof.
  apply (read_fdata_first_failure rp66 zeros no_fmt "j" no_fmt
           [dated; misdated; dated] [0%Z] 1%Z [2%Z] misdated
           error_already_set (fresh 24 1)
           (snd (read_fdata rp66 zeros no_fmt "j" no_fmt
                   [dated; misdated; dated] [0%Z] (fresh 24 1)))).
  - vm_compute; reflexivity.
  - reflexivity.
  - vm_compute; reflexivity.
Defined.

(** ** The exceptions of a record *)

Section Failures.

Context (cat : catalog).
Lemma field_throws mem end_ f ptr s e s' :
  field cat mem end_ f ptr s = (Throw e, s') -> field_failure e.
Proof.
  unfold field, field_failure. unfold_cmd.
  repeat case_match; intros; simplify_eq; auto.
Qed.

Lemma fields_throws mem end_ fmt ptr s e s' :
  fields cat mem end_ fmt ptr s = (Throw e, s') -> field_failure e.
Proof.
  revert ptr s. induction fmt as [|f fmt IH]; intros ptr s; [done|].
  cbn [fields]. unfold bind.
  destruct (field cat mem end_ f ptr s) as [[p| |] s1] eqn:Hfield.
  - apply IH.
  - intros [= <- <-]. by eapply field_throws.
  - done.
Qed.

Lemma frame_row_throws pre_fmt fmt post_fmt mem end_ ptr s e s' :
  frame_row cat pre_fmt fmt post_fmt mem end_ ptr s = (Throw e, s') ->
  field_failure e.
Proof.
  unfold frame_row.
  destruct (dlis_uvari cat mem ptr) as [p0 frameno]; simpl.
  destruct (dlis_packflen cat pre_fmt mem p0) as [pre d0].
  unfold assert_overflow, non_sequential, bind, gets, modify, ret, throw.
  destruct (frameno =? expected_frameno s)%Z;
    (destruct (end_ <? p0 + pre);
      [intros [= <- <-]; unfold field_failure; by auto|]);
    pose proof (fields_throws mem end_ fmt (p0 + pre) s) as Hfields;
    (destruct (fields cat mem end_ fmt (p0 + pre) s) as [[q|e1|] s1];
      [|intros [= <- <-]; by eapply Hfields|done]);
    (destruct (dlis_packflen cat post_fmt mem q) as [post d1]);
    cbn -[Nat.ltb]; (destruct (end_ <? q + post); [|done]);
    intros [= <- <-]; unfold field_failure; by auto.
Qed.

End Failures.

(** Once a record is fetched, decoding it can end with one of five
    exceptions and no other: the two of [dl::not_implemented], for an
    encrypted record and for a second frame; the [std::runtime_error] of a
    field that would read past the end of the record; the
    [std::runtime_error] of pybind11 for text that is no UTF-8; and
    [py::error_already_set] for a date and time that Python rejects. *)
Theorem read_record_throws cat stray pre_fmt fmt post_fmt r s e s' :
  read_record cat stray pre_fmt fmt post_fmt r s = (Throw e, s') ->
  record_failure e.
Proof.
  unfold read_record, record_failure.
  destruct (isencrypted r); [intros [= <- <-]; by auto|].
  destruct (dlis_obname _ _ _) as [[[[p0 o] c] n] id0].
  rewrite frames_once. destruct (p0 <? length (data r)); [|done].
  unfold frame, bind.
  pose proof (frame_row_throws cat pre_fmt fmt post_fmt (bytes_of stray r)
                (length (data r)) p0 s) as Hrow.
  destruct (frame_row _ _ _ _ _ _ _ _) as [[q|e1|] s1].
  - destruct (q =? length (data r)); [done|].
    intros [= <- <-]. by auto.
  - intros [= <- <-]. do 2 right. by eapply Hrow.
  - done.
Qed.

Lemma read_record_throws_witness :
  record_failure error_already_set.
Proof.
  apply (read_record_throws rp66 zeros no_fmt "j" no_fmt misdated
           (fresh 8 1) error_already_set
           (snd (read_record rp66 zeros no_fmt "j" no_fmt misdated
                   (fresh 8 1)))).
  vm_compute; reflexivity.
Defined.

(** ** What the outcome depends on *)

Section Cursor.

Context (cat : catalog).
Context (stray : nat -> byte).

Lemma field_cursor mem end_ f ptr s t :
  same_cursor s t ->
  fst (field cat mem end_ f ptr s) = fst (field cat mem end_ f ptr t) /\
  same_cursor (snd (field cat mem end_ f ptr s))
              (snd (field cat mem end_ f ptr t)).
Proof.
  intros [Hd He]. unfold field, same_cursor. unfold_cmd.
  repeat case_match; simplify_eq/=; by rewrite ?Hd, ?He.
Qed.

Lemma fields_cursor mem end_ fmt ptr s t :
  same_cursor s t ->
  fst (fields cat mem end_ fmt ptr s) = fst (fields cat mem end_ fmt ptr t) /\
  same_cursor (snd (fields cat mem end_ fmt ptr s))
              (snd (fields cat mem end_ fmt ptr t)).
Proof.
  revert ptr s t. induction fmt as [|f fmt IH]; intros ptr s t Hst; [done|].
  cbn [fields]. unfold bind.
  destruct (field_cursor mem end_ f ptr s t Hst) as [Hfst Hsnd].
  destruct (field cat mem end_ f ptr s) as [[p|e|] s1],
           (field cat mem end_ f ptr t) as [[p'|e'|] t1];
    simpl in *; simplify_eq; try done.
  by apply IH.
Qed.

Lemma frame_row_cursor pre_fmt fmt post_fmt mem end_ ptr s t :
  same_cursor s t ->
  fst (frame_row cat pre_fmt fmt post_fmt mem end_ ptr s)
  = fst (frame_row cat pre_fmt fmt post_fmt mem end_ ptr t) /\
  same_cursor (snd (frame_row cat pre_fmt fmt post_fmt mem end_ ptr s))
              (snd (frame_row cat pre_fmt fmt post_fmt mem end_ ptr t)).
Proof.
  intros Hst. unfold frame_row.
  destruct (dlis_uvari cat mem ptr) as [p0 frameno]; simpl.
  destruct (dlis_packflen cat pre_fmt mem p0) as [pre d0].
  unfold assert_overflow, non_sequential, bind, gets, modify, ret, throw.
  destruct (frameno =? expected_frameno s)%Z,
           (frameno =? expected_frameno t)%Z;
    (destruct (end_ <? p0 + pre); [done|]);
    destruct (fields_cursor mem end_ fmt (p0 + pre) s t Hst) as [Hfst Hsnd];
    (destruct (fields cat mem end_ fmt (p0 + pre) s) as [[q|e|] s1],
              (fields cat mem end_ fmt (p0 + pre) t) as [[q'|e'|] t1];
       simpl in *; simplify_eq; try done);
    (destruct (dlis_packflen cat post_fmt mem q') as [post d1]);
    cbn -[Nat.ltb]; destruct Hsnd as [Hd He];
    (destruct (end_ <? q' + post); done).
Qed.

Lemma read_record_cursor pre_fmt fmt post_fmt r s t :
  same_cursor s t ->
  fst (read_record cat stray pre_fmt fmt post_fmt r s)
  = fst (read_record cat stray pre_fmt fmt post_fmt r t) /\
  same_cursor (snd (read_record cat stray pre_fmt fmt post_fmt r s))
              (snd (read_record cat stray pre_fmt fmt post_fmt r t)).
Proof.
  intros Hst. unfold read_record.
  destruct (isencrypted r); [done|].
  destruct (dlis_obname _ _ _) as [[[[p0 o] c] n] id0].
  rewrite !frames_once. destruct (p0 <? length (data r)); [|done].
  unfold frame, bind.
  destruct (frame_row_cursor pre_fmt fmt post_fmt (bytes_of stray r)
              (length (data r)) p0 s t Hst) as [Hfst Hsnd].
  destruct (frame_row _ _ _ _ _ _ _ s) as [[q|e|] s1],
           (frame_row _ _ _ _ _ _ _ t) as [[q'|e'|] t1];
    simpl in *; simplify_eq; try done.
  by destruct (q' =? length (data r)).
Qed.

Lemma read_records_cursor pre_fmt fmt post_fmt file indices s t :
  same_cursor s t ->
  fst (read_records cat stray pre_fmt fmt post_fmt file indices s)
  = fst (read_records cat stray pre_fmt fmt post_fmt file indices t) /\
  same_cursor
    (snd (read_records cat stray pre_fmt fmt post_fmt file indices s))
    (snd (read_records cat stray pre_fmt fmt post_fmt file indices t)).
Proof.
  revert s t. induction indices as [|i rest IH]; intros s t Hst; [done|].
  cbn [read_records]. unfold bind. rewrite !stream_at_record.
  destruct (record_at file i) as [r|]; [|done].
  destruct (read_record_cursor pre_fmt fmt post_fmt r s t Hst) as [Hfst Hsnd].
  destruct (read_record _ _ _ _ _ _ s) as [[[]|e|] s1],
           (read_record _ _ _ _ _ _ t) as [[[]|e'|] t1];
    simpl in *; simplify_eq; try done.
  by apply IH.
Qed.

End Cursor.

(** Whether a call of [read_fdata] returns or which exception it throws,
    and how far [dst] has moved when it ends, are decided by the formats,
    the records and the indices: what the buffer and the heap hold when
    the call starts has no part in it. *)
Theorem read_fdata_cursor cat stray pre_fmt fmt post_fmt file indices s t :
  fst (read_fdata cat stray pre_fmt fmt post_fmt file indices s)
  = fst (read_fdata cat stray pre_fmt fmt post_fmt file indices t) /\
  dst (snd (read_fdata cat stray pre_fmt fmt post_fmt file indices s))
  = dst (snd (read_fdata cat stray pre_fmt fmt post_fmt file indices t)).
Proof.
  unfold read_fdata, bind, modify.
  destruct (read_records_cursor cat stray pre_fmt fmt post_fmt file indices
              (set_expected_frameno 1 (set_dst 0 s))
              (set_expected_frameno 1 (set_dst 0 t))) as [Hfst [Hd _]];
    [done|].
  done.
Qed.

(** ** What a call that returns has done *)

Section Returned.

Context (cat : catalog).
Context (stray : nat -> byte).

Lemma with_rows_cons r recs :
  with_rows cat stray (r :: recs)
  = if rows_start cat stray r <? length (data r)
    then r :: with_rows cat stray recs else with_rows cat stray recs.
Proof.
  unfold with_rows. cbn [filter list_filter].
  destruct (Nat.ltb_spec (rows_start cat stray r) (length (data r)));
    case_decide; done || lia.
Qed.

Lemma read_records_returned pre_fmt fmt post_fmt file indices s s' :
  read_records cat stray pre_fmt fmt post_fmt file indices s
  = (Return tt, s') ->
  rows_written cat stray pre_fmt fmt post_fmt
    (with_rows cat stray (records_of file indices)) s s' /\
  length (records_of file indices) = length indices /\
  Forall (fun r => isencrypted r = false) (records_of file indices).
Proof.
  revert s. induction indices as [|i rest IH]; intros s.
  - intros [= <-]. repeat split; constructor.
  - cbn [read_records]. unfold bind at 1. rewrite stream_at_record.
    unfold records_of. cbn [omap list_omap].
    destruct (record_at file i) as [r|]; [|done].
    unfold bind.
    destruct (read_record _ _ _ _ _ _ _) as [[[]|e|] s1] eqn:Hrec; [|done..].
    intros (Hrows & Hlen & Hplain)%IH. fold (records_of file rest).
    rewrite with_rows_cons.
    unfold read_record in Hrec. unfold rows_start.
    destruct (isencrypted r) eqn:Hr; [done|].
    destruct (dlis_obname _ _ _) as [[[[p0 o] c] n] id0] eqn:Hname.
    rewrite frames_once in Hrec.
    split; [|split; [simpl; by rewrite Hlen|by constructor]].
    destruct (p0 <? length (data r)).
    + destruct (frame _ _ _ _ _ _ _ _) as [[q|e|] s0] eqn:Hframe;
        simplify_eq.
      pose proof (frame_returns_end _ _ _ _ _ _ _ _ _ _ Hframe) as ->.
      econstructor; [|done]. unfold rows_start. by rewrite Hname.
    + by simplify_eq.
Qed.

End Returned.

(** A call of [read_fdata] that returns has fetched a record for every
    index, none of them encrypted, and has run the loop body exactly once,
    from the start of the rows to the end of the record, on each record
    that has bytes after the name of its frame, in the order of the
    indices: one row for each such record, and none for the others. *)
Theorem read_fdata_returned cat stray pre_fmt fmt post_fmt file indices s s' :
  read_fdata cat stray pre_fmt fmt post_fmt file indices s = (Return tt, s') ->
  rows_written cat stray pre_fmt fmt post_fmt
    (with_rows cat stray (records_of file indices))
    (set_expected_frameno 1 (set_dst 0 s)) s' /\
  length (records_of file indices) = length indices /\
  Forall (fun r => isencrypted r = false) (records_of file indices).
Proof.
  unfold read_fdata, bind, modify. apply read_records_returned.
Qed.

Lemma read_fdata_returned_witness :
  rows_written rp66 zeros no_fmt "fF" no_fmt
    (with_rows rp66 zeros
       (records_of [frame_1; name_only; frame_2] [0%Z; 1%Z; 2%Z]))
    (set_expected_frameno 1 (set_dst 0 (fresh 24 1)))
    (snd (read_fdata rp66 zeros no_fmt "fF" no_fmt
            [frame_1; name_only; frame_2] [0%Z; 1%Z; 2%Z] (fresh 24 1))) /\
  length (records_of [frame_1; name_only; frame_2] [0%Z; 1%Z; 2%Z])
  = length [0%Z; 1%Z; 2%Z] /\
  Forall (fun r => isencrypted r = false)
    (records_of [frame_1; name_only; frame_2] [0%Z; 1%Z; 2%Z]).
Proof.
  apply (read_fdata_returned rp66 zeros no_fmt "fF" no_fmt
           [frame_1; name_only; frame_2] [0%Z; 1%Z; 2%Z] (fresh 24 1)).
  vm_compute; reflexivity.
Defined.

(** ** The references of a row *)

Lemma release_all_length h occupants :
  length (release_all h occupants) = length h.
Proof.
  revert h. induction occupants as [|a occupants IH]; intros h; [done|].
  cbn [release_all foldl]. fold (release_all (alter (add_ref (-1)) a h)).
  fold (release_all (alter (add_ref (-1)) a h) occupants).
  by rewrite IH, length_alter.
Qed.

Lemma release_all_app h news occupants :
  Forall (fun a => a < length h) occupants ->
  release_all (h ++ news) occupants = release_all h occupants ++ news.
Proof.
  revert h. induction occupants as [|a occupants IH]; intros h Hall; [done|].
  apply Forall_cons in Hall as [Ha Hall].
  unfold release_all. cbn [foldl].
  fold (release_all (alter (add_ref (-1)) a (h ++ news)) occupants).
  fold (release_all (alter (add_ref (-1)) a h) occupants).
  rewrite alter_app_l by done. apply IH.
  by rewrite length_alter.
Qed.

Section SlotsFacts.

Context (cat : catalog).

(** A field that returns without an object built for it is an identifier
    or a field of the generic path: it leaves the heap as it is. *)
Lemma field_plain mem end_ f ptr s p s' :
  field cat mem end_ f ptr s = (Return p, s') ->
  object_of cat mem ptr (dispatch cat f) = None ->
  heap s' = heap s.
Proof.
  shape_cases f; cbn [object_of].
  - by destruct (dlis_fsing1 cat mem ptr) as [[? ?] ?].
  - by destruct (dlis_fsing2 cat mem ptr) as [[[? ?] ?] ?].
  - by destruct (dlis_fdoub1 cat mem ptr) as [[? ?] ?].
  - by destruct (dlis_fdoub2 cat mem ptr) as [[[? ?] ?] ?].
  - destruct (dlis_ident cat mem ptr) as [[? ?] ?].
    unfold_cmd. by intros [= <- <-].
  - destruct (dlis_uvari cat mem ptr) as [? ?].
    unfold py_str, bind, throw. by destruct (utf8_valid _).
  - by destruct (dlis_obname cat mem ptr) as [[[[? ?] ?] ?] ?].
  - by destruct (dlis_objref cat mem ptr) as [[[[[[? ?] ?] ?] ?] ?] ?].
  - by destruct (dlis_attref cat mem ptr)
      as [[[[[[[[? ?] ?] ?] ?] ?] ?] ?] ?].
  - destruct (dlis_dtime cat mem ptr) as [? dt].
    unfold store_dtime, bind, load_pointer, gets, Py_DECREF, modify, throw.
    by destruct (PyDateTime_FromDateAndTime _ _ _ _ _ _ _).
  - unfold packf_field.
    destruct (dlis_packflen _ _ _ _) as [src_skip dst_skip].
    unfold_cmd. destruct (end_ <? ptr + src_skip); [done|].
    by intros [= <- <-].
Qed.

(** The heap after the fields of a row whose objects are all new ones,
    when every object slot held the address of an object that was there
    before the row: the heap as it was, with one reference taken from the
    occupant of each object slot, and after it the objects built for the
    fields, in their order, each with the one reference of its slot. *)
Theorem fields_references mem end_ fmt ptr s p s' slots :
  fields cat mem end_ fmt ptr s = (Return p, s') ->
  object_slots cat mem end_ fmt ptr s = Some slots ->
  Forall (fun slot => slot.1 < length (heap s)) slots ->
  heap s' = release_all (heap s) slots.*1 ++ (owned_once <$> slots.*2).
Proof.
  revert ptr s slots. induction fmt as [|f fmt IH]; intros ptr s slots.
  - intros [= <- <-] [= <-] _. cbn. by rewrite app_nil_r.
  - cbn [fields object_slots]. unfold bind.
    destruct (field cat mem end_ f ptr s) as [[p1|e|] s1] eqn:Hfield;
      [|done..].
    intros Hrest.
    destruct (object_of cat mem ptr (dispatch cat f)) as [[q v]|] eqn:Hobj.
    + destruct (builds_new cat mem ptr (dispatch cat f)) eqn:Hnew; [|done].
      destruct (object_slots cat mem end_ fmt p1 s1) as [slots'|] eqn:Hslots;
        [|done].
      intros [= <-] [Hslot Hall]%Forall_cons. cbn [fst] in Hslot.
      rewrite (field_object cat _ _ _ _ _ _ _ Hobj Hnew Hslot) in Hfield.
      simplify_eq.
      rewrite (IH _ _ _ Hrest Hslots); cbn [heap replace_occupant].
      * cbn [fmap list_fmap fst snd]. unfold release_all at 2. cbn [foldl].
        fold (release_all (alter (add_ref (-1)) (slot_at (dst s) s) (heap s))).
        rewrite release_all_app.
        -- by rewrite <- app_assoc.
        -- apply Forall_fmap. eapply Forall_impl; [exact Hall|].
           intros [a w] Ha. cbn in *. by rewrite length_alter.
      * eapply Forall_impl; [exact Hall|].
        intros [a w] Ha. cbn in *. rewrite length_app, length_alter. lia.
    + intros Hslots Hall.
      rewrite <- (field_plain _ _ _ _ _ _ _ Hfield Hobj) in *.
      by eapply IH.
Qed.

End SlotsFacts.

Lemma fields_references_witness :
  heap (snd (fields rp66 (bytes_of zeros dated_text) 16 "jS" 5 (fresh 16 2)))
  = release_all (heap (fresh 16 2))
      [(0, PyDateTime 1987 4 19 21 20 15 62000); (0, PyStr [97; 98]%Z)].*1
    ++ (owned_once
          <$> [(0, PyDateTime 1987 4 19 21 20 15 62000);
               (0, PyStr [97; 98]%Z)].*2).
Proof.
  apply (fields_references rp66 (bytes_of zeros dated_text) 16 "jS" 5
           (fresh 16 2) 16
           (snd (fields rp66 (bytes_of zeros dated_text) 16 "jS" 5
                   (fresh 16 2)))
           [(0, PyDateTime 1987 4 19 21 20 15 62000);
            (0, PyStr [97; 98]%Z)]).
  - vm_compute; reflexivity.
  - vm_compute; reflexivity.
  - vm_compute. repeat constructor.
Defined.

(** * More on [storage_label] *)



(** * The record lambdas *)

Section ParseObjectsFacts.

Context {object_set : Type}.
Context (dl_parse_objects : list byte -> outcome object_set).

Lemma parse_objects_loop_app objects recs1 recs2 :
  parse_objects_loop dl_parse_objects objects (recs1 ++ recs2)
  = match parse_objects_loop dl_parse_objects objects recs1 with
    | Return objects' => parse_objects_loop dl_parse_objects objects' recs2
    | other => other
    end.
Proof.
  revert objects. induction recs1 as [|rec recs1 IH]; intros objects; [done|].
  cbn [app parse_objects_loop].
  destruct (isencrypted rec); [apply IH|].
  destruct (dl_parse_objects (data rec)); [apply IH|done..].
Qed.

Lemma plaintext_cons rec recs :
  plaintext (rec :: recs)
  = if isencrypted rec then plaintext recs else rec :: plaintext recs.
Proof.
  unfold plaintext. cbn [filter list_filter].
  destruct (isencrypted rec); by case_decide.
Qed.

(** The loop returns the vector it started with and, after it, one object
    set for each record that is not encrypted. *)
Lemma parse_objects_loop_returns objects recs sets :
  parse_objects_loop dl_parse_objects objects recs = Return sets <->
  exists parsed,
    sets = objects ++ parsed /\
    Forall2 (fun rec set => dl_parse_objects (data rec) = Return set)
            (plaintext recs) parsed.
Proof.
  revert objects. induction recs as [|rec recs IH]; intros objects.
  - cbn [parse_objects_loop]. split.
    + intros [= <-]. exists []. split; [by rewrite app_nil_r|constructor].
    + intros (parsed & -> & Hall). apply Forall2_nil_inv_l in Hall as ->.
      by rewrite app_nil_r.
  - cbn [parse_objects_loop]. rewrite plaintext_cons.
    destruct (isencrypted rec); [apply IH|].
    destruct (dl_parse_objects (data rec)) as [set|e|] eqn:Hrec.
    + rewrite IH. split.
      * intros (parsed & -> & Hall). exists (set :: parsed).
        split; [by rewrite <- app_assoc|by constructor].
      * intros (parsed & -> & Hall).
        apply Forall2_cons_inv_l in Hall as (set' & parsed' & Hset & Hall & ->).
        rewrite Hrec in Hset. simplify_eq.
        exists parsed'. split; [by rewrite <- app_assoc|done].
    + split; [done|]. intros (parsed & _ & Hall).
      apply Forall2_cons_inv_l in Hall as (set' & parsed' & Hset & _).
      by rewrite Hrec in Hset.
    + split; [done|]. intros (parsed & _ & Hall).
      apply Forall2_cons_inv_l in Hall as (set' & parsed' & Hset & _).
      by rewrite Hrec in Hset.
Qed.

End ParseObjectsFacts.

(** [parse_objects] returns exactly when every record that is not
    encrypted parses, and then with the object sets of those records, in
    their order: an encrypted record is passed over without a word, so
    that the sets are fewer than the records and their places differ. *)
Theorem parse_objects_plaintext {object_set}
  (dl_parse_objects : list byte -> outcome object_set) recs sets :
  parse_objects dl_parse_objects recs = Return sets <->
  Forall2 (fun rec set => dl_parse_objects (data rec) = Return set)
          (plaintext recs) sets.
Proof.
  unfold parse_objects. rewrite parse_objects_loop_returns. split.
  - by intros (parsed & -> & Hall).
  - intros Hall. by exists sets.
Qed.

(** The first record that does not parse ends [parse_objects] with its
    exception: the records after it are not looked at, and the sets parsed
    before it are not returned. *)
Theorem parse_objects_first_failure {object_set}
  (dl_parse_objects : list byte -> outcome object_set) done rec rest sets e :
  parse_objects dl_parse_objects done = Return sets ->
  isencrypted rec = false ->
  dl_parse_objects (data rec) = Throw e ->
  parse_objects dl_parse_objects (done ++ rec :: rest) = Throw e.
Proof.
  unfold parse_objects. intros Hdone Hplain Hrec.
  rewrite parse_objects_loop_app, Hdone.
  cbn [parse_objects_loop]. by rewrite Hplain, Hrec.
Qed.

Lemma parse_objects_first_failure_witness :
  parse_objects parse_bytes ([frame_1; sealed] ++ fdata [] :: [frame_2])
  = Throw (runtime_error "no object set").
Proof.
  apply (parse_objects_first_failure parse_bytes [frame_1; sealed]
           (fdata []) [frame_2] [data frame_1]
           (runtime_error "no object set")).
  - reflexivity.
  - reflexivity.
  - reflexivity.
Defined.

Section ExtractFacts.

Context (stream_at_index : N -> outcome record).

Lemma extract_loop_returns recs indices out :
  extract_loop stream_at_index recs indices = Return out <->
  exists got,
    out = recs ++ got /\
    Forall2 (fun i rec => stream_at_index i = Return rec) indices got.
Proof.
  revert recs. induction indices as [|i indices IH]; intros recs.
  - cbn [extract_loop]. split.
    + intros [= <-]. exists []. split; [by rewrite app_nil_r|constructor].
    + intros (got & -> & Hall). apply Forall2_nil_inv_l in Hall as ->.
      by rewrite app_nil_r.
  - cbn [extract_loop].
    destruct (stream_at_index i) as [rec|e|] eqn:Hi.
    + rewrite IH. split.
      * intros (got & -> & Hall). exists (rec :: got).
        split; [by rewrite <- app_assoc|by constructor].
      * intros (got & -> & Hall).
        apply Forall2_cons_inv_l in Hall as (rec' & got' & Hrec & Hall & ->).
        rewrite Hi in Hrec. simplify_eq.
        exists got'. split; [by rewrite <- app_assoc|done].
    + split; [done|]. intros (got & _ & Hall).
      apply Forall2_cons_inv_l in Hall as (rec' & got' & Hrec & _).
      by rewrite Hi in Hrec.
    + split; [done|]. intros (got & _ & Hall).
      apply Forall2_cons_inv_l in Hall as (rec' & got' & Hrec & _).
      by rewrite Hi in Hrec.
Qed.

End ExtractFacts.

(** [extract] returns exactly when the stream gives a record for every
    index, and then with those records in the order of the indices: one
    record for each index, also for an index that occurs twice. *)
Theorem extract_records (stream_at_index : N -> outcome record) indices recs :
  extract stream_at_index indices = Return recs <->
  Forall2 (fun i rec => stream_at_index i = Return rec) indices recs.
Proof.
  unfold extract. rewrite extract_loop_returns. split.
  - by intros (got & -> & Hall).
  - intros Hall. by exists recs.
Qed.
